(** * Guess Who: the question engine and its candidate filters

    A shallow embedding of [person_model.py] (the [Person] dataclass and its
    classification predicates) and of [game_engine.py] (the [GuessWhoGame]
    question functions, [play_round] and the round loop of [play_game]),
    followed by the properties of the engine.

    Conventions of the embedding.
    - Python [str] values are [string]s whose characters are in the ASCII
      range; [upper], [lower] and [strip] act on ASCII letters and ASCII
      white space as [str.upper], [str.lower] and [str.strip] do there.
    - Python [int] values that count things are [nat]; [age] and [sno], which
      come from an SQL [INT] column, are [Z].
    - The console is explicit: [stdin] is the list of lines still to be read
      by [input], [stdout] the lines written so far.  Formatted messages are
      kept as constructors of [Line] carrying the values they interpolate.
      [input] on an exhausted [stdin] raises [EOFError]. *)

From Stdlib Require Import List Arith ZArith Lia Bool.
From Stdlib Require Import Permutation.
From Stdlib Require Import Ascii String.
Import ListNotations.

Local Open Scope string_scope.
Local Open Scope list_scope.

(* ================================================================= *)
(** ** Text primitives of the Python [str] type *)

Module Str.

Definition is_space (c : ascii) : bool :=
  let n := nat_of_ascii c in
  (((9 <=? n) && (n <=? 13)) || ((28 <=? n) && (n <=? 32)))%nat.

Definition upper_char (c : ascii) : ascii :=
  let n := nat_of_ascii c in
  if ((97 <=? n) && (n <=? 122))%nat then ascii_of_nat (n - 32) else c.

Definition lower_char (c : ascii) : ascii :=
  let n := nat_of_ascii c in
  if ((65 <=? n) && (n <=? 90))%nat then ascii_of_nat (n + 32) else c.

Fixpoint upper (s : string) : string :=
  match s with
  | EmptyString => EmptyString
  | String c t => String (upper_char c) (upper t)
  end.

Fixpoint lower (s : string) : string :=
  match s with
  | EmptyString => EmptyString
  | String c t => String (lower_char c) (lower t)
  end.

Fixpoint lstrip (s : string) : string :=
  match s with
  | EmptyString => EmptyString
  | String c t => if is_space c then lstrip t else s
  end.

Fixpoint rstrip (s : string) : string :=
  match s with
  | EmptyString => EmptyString
  | String c t =>
      match rstrip t with
      | EmptyString => if is_space c then EmptyString else String c EmptyString
      | t' => String c t'
      end
  end.

Definition strip (s : string) : string := rstrip (lstrip s).

(** [needle in hay] for two strings: substring test. *)
Fixpoint contains (needle hay : string) : bool :=
  prefix needle hay ||
  match hay with
  | EmptyString => false
  | String _ t => contains needle t
  end.

(** [x in xs] for a list of strings. *)
Definition mem (x : string) (xs : list string) : bool :=
  existsb (String.eqb x) xs.

(** Truth value of a string in a condition: empty is false. *)
Definition truthy (s : string) : bool :=
  match s with EmptyString => false | _ => true end.

End Str.

(* ================================================================= *)
(** ** person_model.py *)

Record Person : Type := mkPerson {
  sno : Z;
  name : string;
  gender : string;
  age : Z;
  occupation : string;
  industry : string;
  nationality : string
}.

(** [Person.__post_init__]: the two assignments, in order. *)
Definition post_init (self : Person) : Person :=
  let self1 :=
    mkPerson (sno self) (name self)
             (if Str.truthy (gender self) then Str.upper (gender self) else "")
             (age self) (occupation self) (industry self) (nationality self) in
  mkPerson (sno self1) (name self1) (gender self1) (age self1) (occupation self1)
           (if Str.truthy (industry self1) then Str.upper (industry self1) else "")
           (nationality self1).

(** The dataclass constructor [Person(...)]: field assignment, then
    [__post_init__]. *)
Definition Person_init (sno0 : Z) (name0 gender0 : string) (age0 : Z)
    (occupation0 industry0 nationality0 : string) : Person :=
  post_init (mkPerson sno0 name0 gender0 age0 occupation0 industry0 nationality0).

(** A row of the [guess_who] table as the cursor returns it; a text column
    may be NULL ([None]).  [Age] is the integer the dataclass declares for
    [age]: a row whose [Age] is NULL is not a [Row], and what the engine does
    with a person whose age is [None] is outside this embedding. *)
Record Row : Type := mkRow {
  row_sno : Z;
  row_name : option string;
  row_gender : option string;
  row_age : Z;
  row_occupation : option string;
  row_industry : option string;
  row_nationality : option string
}.

(** [x.strip() if x else ''] *)
Definition strip_or_empty (x : option string) : string :=
  match x with
  | Some s => if Str.truthy s then Str.strip s else ""
  | None => ""
  end.

Definition from_tuple (data : Row) : Person :=
  Person_init (row_sno data)
              (strip_or_empty (row_name data))
              (strip_or_empty (row_gender data))
              (row_age data)
              (strip_or_empty (row_occupation data))
              (strip_or_empty (row_industry data))
              (strip_or_empty (row_nationality data)).

Definition entertainment_industries : list string := ["SPORTS"; "MUSIC"; "FILM"].

Definition is_in_entertainment (self : Person) : bool :=
  Str.mem (industry self) entertainment_industries.

Definition plays_sport (self : Person) : bool := String.eqb (industry self) "SPORTS".

Definition is_in_music (self : Person) : bool := String.eqb (industry self) "MUSIC".

Definition is_in_film (self : Person) : bool := String.eqb (industry self) "FILM".

Definition plays_tennis (self : Person) : bool :=
  Str.contains "tennis" (Str.lower (occupation self)).

Definition ball_sports : list string :=
  ["football"; "basketball"; "tennis"; "cricket"; "baseball"].

Definition plays_ball_sport (self : Person) : bool :=
  existsb (fun sport => Str.contains sport (Str.lower (occupation self))) ball_sports.

(* ----------------------------------------------------------------- *)
(** *** Dynamically typed values, exceptions of pure code *)

(** What a list cell or a keyword argument holds here: a [str] or an [int]. *)
Inductive Value : Type :=
| VStr (s : string)
| VInt (z : Z).

Module Py.

Inductive error : Type := AttributeError | TypeError | IndexError | ValueError.

Inductive result (A : Type) : Type :=
| Return (a : A)
| Throw (e : error).
Arguments Return {A} a.
Arguments Throw {A} e.

Definition bind {A B} (r : result A) (k : A -> result B) : result B :=
  match r with
  | Return a => k a
  | Throw e => Throw e
  end.

(** [data[i]] *)
Definition index {A} (data : list A) (i : nat) : result A :=
  match nth_error data i with
  | Some x => Return x
  | None => Throw IndexError
  end.

(** [value.upper()], [value.lower()]: a method only [str] has. *)
Definition str_method (f : string -> string) (value : Value) : result string :=
  match value with
  | VStr s => Return (f s)
  | VInt _ => Throw AttributeError
  end.

(** [a < value] and [a > value] for an [int] [a]. *)
Definition int_lt (a : Z) (value : Value) : result bool :=
  match value with
  | VInt b => Return (a <? b)%Z
  | VStr _ => Throw TypeError
  end.

Definition int_gt (a : Z) (value : Value) : result bool :=
  match value with
  | VInt b => Return (b <? a)%Z
  | VStr _ => Throw TypeError
  end.

(** [int(value)] and [str(value)].  [int] of a string and [str] of an integer
    are the interpreter's; they are taken as given. *)
Definition int (int_of_str : string -> result Z) (value : Value) : result Z :=
  match value with
  | VInt z => Return z
  | VStr s => int_of_str s
  end.

Definition str (str_of_int : Z -> string) (value : Value) : string :=
  match value with
  | VStr s => s
  | VInt z => str_of_int z
  end.

(** [sep.join(l)] *)
Fixpoint join (sep : string) (l : list string) : string :=
  match l with
  | [] => ""
  | [x] => x
  | x :: rest => String.append x (String.append sep (join sep rest))
  end.

End Py.

Notation "'let*' x ':=' m 'in' k" := (Py.bind m (fun x => k))
  (at level 10, x name, m at level 100, k at level 200).

(* ----------------------------------------------------------------- *)
(** *** person_model.py: lists and criteria *)

Definition from_list (int_of_str : string -> Py.result Z) (str_of_int : Z -> string)
    (data : list Value) : Py.result Person :=
  let* d0 := Py.index data 0 in
  let* sno0 := Py.int int_of_str d0 in
  let* d1 := Py.index data 1 in
  let* d2 := Py.index data 2 in
  let* d3 := Py.index data 3 in
  let* age0 := Py.int int_of_str d3 in
  let* d4 := Py.index data 4 in
  let* d5 := Py.index data 5 in
  let* d6 := Py.index data 6 in
  Py.Return (Person_init sno0 (Py.str str_of_int d1) (Py.str str_of_int d2) age0
                         (Py.str str_of_int d4) (Py.str str_of_int d5)
                         (Py.str str_of_int d6)).

Definition to_list (self : Person) : list Value :=
  [VInt (sno self); VStr (name self); VStr (gender self); VInt (age self);
   VStr (occupation self); VStr (industry self); VStr (nationality self)].

(** [key == k and cond] *)
Definition key_and (key k : string) (cond : Py.result bool) : Py.result bool :=
  if String.eqb key k then cond else Py.Return false.

(** One arm of the [if]/[elif] chain: taken when [test] holds, otherwise the
    chain goes on with [next]. *)
Definition or_else (test next : Py.result bool) : Py.result bool :=
  match test with
  | Py.Return true => Py.Return true
  | Py.Return false => next
  | Py.Throw e => Py.Throw e
  end.

(** The body of the loop of [matches_criteria] for one item: [true] when it
    executes [return False]. *)
Definition criterion_rejects (self : Person) (key0 : string) (value : Value)
    : Py.result bool :=
  let key := Str.lower key0 in
  or_else (key_and key "gender"
             (let* v := Py.str_method Str.upper value in
              Py.Return (negb (String.eqb (Str.upper (gender self)) v))))
 (or_else (key_and key "industry"
             (let* v := Py.str_method Str.upper value in
              Py.Return (negb (String.eqb (Str.upper (industry self)) v))))
 (or_else (key_and key "occupation"
             (let* v := Py.str_method Str.lower value in
              Py.Return (negb (Str.contains v (Str.lower (occupation self))))))
 (or_else (key_and key "nationality"
             (let* v := Py.str_method Str.lower value in
              Py.Return (negb (String.eqb (Str.lower (nationality self)) v))))
 (or_else (key_and key "age_min" (Py.int_lt (age self) value))
          (key_and key "age_max" (Py.int_gt (age self) value)))))).

(** [matches_criteria]; its keyword arguments, in call order. *)
Fixpoint matches_criteria (self : Person) (criteria : list (string * Value))
    : Py.result bool :=
  match criteria with
  | [] => Py.Return true
  | (key, value) :: rest =>
      match criterion_rejects self key value with
      | Py.Return true => Py.Return false
      | Py.Return false => matches_criteria self rest
      | Py.Throw e => Py.Throw e
      end
  end.

(* ================================================================= *)
(** ** game_engine.py: state, console and control *)

Record GuessWhoGame : Type := mkGame {
  people : list Person;
  remaining_people : list Person;
  questions_asked : nat;
  max_questions : nat
}.

(** [GuessWhoGame.__init__] *)
Definition GuessWhoGame_init : GuessWhoGame := mkGame [] [] 0 20.

Definition set_remaining_people (self : GuessWhoGame) (l : list Person) : GuessWhoGame :=
  mkGame (people self) l (questions_asked self) (max_questions self).

(** [self.questions_asked += 1] *)
Definition incr_questions_asked (self : GuessWhoGame) : GuessWhoGame :=
  mkGame (people self) (remaining_people self) (questions_asked self + 1) (max_questions self).

(** What the engine writes: the prompt of an [input] call, or one [print]. *)
Inductive Line : Type :=
| Prompt (text : string)
| LoadedPeople (n : nat)
| Welcome (n : nat) (budget : nat)
| RemainingPossibilities (n : nat)
| PleaseMF
| PleaseYN
| FiguredOut
| DrumRoll
| ThePersonIs (who : string)
| GuessedIn (n : nat)
| NoMatch
| OutOfQuestions
| Bullet (who : string)
| QuestionOf (k : nat) (budget : nat)
| RemainingPeople (n : nat).

Record World : Type := mkWorld {
  game : GuessWhoGame;
  stdin : list string;
  stdout : list Line
}.

Inductive Exn : Type := EOFError | ValueError.

Inductive Res (A : Type) : Type :=
| Ok (a : A) (w : World)
| Raise (e : Exn) (w : World).
Arguments Ok {A} a w.
Arguments Raise {A} e w.

Definition M (A : Type) : Type := World -> Res A.

Definition ret {A} (a : A) : M A := fun w => Ok a w.

Definition bind {A B} (m : M A) (k : A -> M B) : M B :=
  fun w => match m w with
           | Ok a w' => k a w'
           | Raise e w' => Raise e w'
           end.

Notation "x <- m ;; k" := (bind m (fun x => k))
  (at level 61, m at next level, right associativity).
Notation "m ;; k" := (bind m (fun _ => k))
  (at level 61, right associativity).

Definition get_self : M GuessWhoGame := fun w => Ok (game w) w.

Definition print (ls : list Line) : M unit :=
  fun w => Ok tt (mkWorld (game w) (stdin w) (stdout w ++ ls)).

(** One pass through the body of a [while True:] loop that has read
    [answer]: either the loop is left ([break] or [return]) with a result, a
    new engine state and what was printed, or it goes round again. *)
Inductive LoopStep (A : Type) : Type :=
| Break (result : A) (self' : GuessWhoGame) (printed : list Line)
| Continue (printed : list Line).
Arguments Break {A} result self' printed.
Arguments Continue {A} printed.

(** [while True: answer = input(prompt).strip().upper(); body] *)
Fixpoint while_input {A} (prompt : string)
    (body : string -> GuessWhoGame -> LoopStep A)
    (inp : list string) (self : GuessWhoGame) (out : list Line) : Res A :=
  match inp with
  | [] => Raise EOFError (mkWorld self [] (out ++ [Prompt prompt]))
  | line :: rest =>
      match body (Str.upper (Str.strip line)) self with
      | Break a self' printed =>
          Ok a (mkWorld self' rest (out ++ Prompt prompt :: printed))
      | Continue printed =>
          while_input prompt body rest self (out ++ Prompt prompt :: printed)
      end
  end.

Definition input_loop {A} (prompt : string)
    (body : string -> GuessWhoGame -> LoopStep A) : M A :=
  fun w => while_input prompt body (stdin w) (game w) (stdout w).

(** [[p for p in self.remaining_people if cond(p)]] *)
Definition keep (cond : Person -> bool) (self : GuessWhoGame) : GuessWhoGame :=
  set_remaining_people self (filter cond (remaining_people self)).

(* ----------------------------------------------------------------- *)
(** *** The questions *)

Definition gender_prompt := "Is the person Male or Female? (M/F): ".
Definition entertainment_prompt := "Is the person in an entertainment industry? (Y/N): ".
Definition sports_prompt := "Does the person play sports? (Y/N): ".
Definition tennis_prompt := "Does the person play tennis? (Y/N): ".
Definition ball_sport_prompt := "Does the person play a ball sport? (Y/N): ".
Definition film_vs_music_prompt :=
  "Would this person be more popular on Netflix than Spotify? (Y/N): ".
Definition nationality_prompt (most_common : string) :=
  String.append "Is the person from " (String.append most_common "? (Y/N): ").
Definition age_prompt := "Is the person over 40 years old? (Y/N): ".

Definition ask_gender_question : M unit :=
  input_loop gender_prompt (fun answer self =>
    if Str.mem answer ["M"; "F"] then
      let self1 := keep (fun p => String.eqb (gender p) answer) self in
      let self2 := incr_questions_asked self1 in
      Break tt self2 [RemainingPossibilities (List.length (remaining_people self2))]
    else Continue [PleaseMF]).

Definition ask_entertainment_question : M string :=
  input_loop entertainment_prompt (fun answer self =>
    if Str.mem answer ["Y"; "N"] then
      let self1 := incr_questions_asked self in
      if String.eqb answer "Y" then
        Break "entertainment" (keep is_in_entertainment self1) []
      else
        Break "other" (keep (fun p => negb (is_in_entertainment p)) self1) []
    else Continue [PleaseYN]).

(** The shape shared by the remaining yes/no loops: count the question, keep
    the candidates that satisfy [yes] on Y and those that satisfy [no] on N. *)
Definition yes_no_body (yes no : Person -> bool)
    (answer : string) (self : GuessWhoGame) : LoopStep unit :=
  if Str.mem answer ["Y"; "N"] then
    let self1 := incr_questions_asked self in
    if String.eqb answer "Y" then Break tt (keep yes self1) []
    else Break tt (keep no self1) []
  else Continue [PleaseYN].

Definition _ask_tennis_question : M unit :=
  input_loop tennis_prompt
    (yes_no_body plays_tennis (fun p => negb (plays_tennis p))).

Definition _ask_ball_sport_question : M unit :=
  input_loop ball_sport_prompt
    (yes_no_body plays_ball_sport (fun p => negb (plays_ball_sport p))).

Definition ask_sports_question : M unit :=
  self <- get_self ;;
  if negb (existsb plays_sport (remaining_people self)) then ret tt
  else
    input_loop sports_prompt
      (yes_no_body plays_sport (fun p => negb (plays_sport p))) ;;
    self <- get_self ;;
    (if (3 <? List.length (remaining_people self))%nat
        && existsb plays_tennis (remaining_people self)
     then _ask_tennis_question else ret tt) ;;
    self <- get_self ;;
    (if (3 <? List.length (remaining_people self))%nat
        && existsb plays_ball_sport (remaining_people self)
     then _ask_ball_sport_question else ret tt).

Definition ask_film_vs_music_question : M unit :=
  input_loop film_vs_music_prompt (yes_no_body is_in_film is_in_music).

(** A Python [dict] from nationality to count.  Iteration order is insertion
    order, and [max] depends on it, so the dictionary is an association list:
    assigning to an existing key keeps its place, a new key goes to the end. *)
Definition Dict : Type := list (string * nat).

Fixpoint dict_get (d : Dict) (k : string) (default : nat) : nat :=
  match d with
  | [] => default
  | (k', v) :: rest => if String.eqb k' k then v else dict_get rest k default
  end.

Fixpoint dict_set (d : Dict) (k : string) (v : nat) : Dict :=
  match d with
  | [] => [(k, v)]
  | (k', v') :: rest =>
      if String.eqb k' k then (k', v) :: rest else (k', v') :: dict_set rest k v
  end.

Definition dict_keys (d : Dict) : list string := map fst d.

(** The counting loop of [ask_nationality_question], from dictionary [d]. *)
Fixpoint count_nationalities (l : list Person) (d : Dict) : Dict :=
  match l with
  | [] => d
  | person :: rest =>
      let nat := nationality person in
      count_nationalities rest (dict_set d nat (dict_get d nat 0 + 1))
  end.

(** The scan of [max(iterable, key=...)]: the running best is replaced only by
    a strictly larger key, so the first maximal element wins. *)
Fixpoint max_scan (key : string -> nat) (best : string) (l : list string) : string :=
  match l with
  | [] => best
  | x :: rest => if (key best <? key x)%nat then max_scan key x rest
                 else max_scan key best rest
  end.

(** [max(l, key=key)]; [None] stands for the [ValueError] on an empty [l]. *)
Definition py_max (key : string -> nat) (l : list string) : option string :=
  match l with
  | [] => None
  | x :: rest => Some (max_scan key x rest)
  end.

Definition ask_nationality_question : M unit :=
  self <- get_self ;;
  if (List.length (remaining_people self) <=? 2)%nat then ret tt
  else
    let nationalities := count_nationalities (remaining_people self) [] in
    match py_max (fun x => dict_get nationalities x 0) (dict_keys nationalities) with
    | None => fun w => Raise ValueError w
    | Some most_common =>
        if (1 <? dict_get nationalities most_common 0)%nat then
          input_loop (nationality_prompt most_common)
            (yes_no_body (fun p => String.eqb (nationality p) most_common)
                         (fun p => negb (String.eqb (nationality p) most_common)))
        else ret tt
    end.

Definition ask_age_question : M unit :=
  self <- get_self ;;
  if (List.length (remaining_people self) <=? 2)%nat then ret tt
  else
    input_loop age_prompt
      (yes_no_body (fun p => (40 <? age p)%Z) (fun p => (age p <=? 40)%Z)).

(* ----------------------------------------------------------------- *)
(** *** Rounds and the session *)

(** The question part of [play_round] ("Smart question asking"). *)
Definition ask_by_size : M unit :=
  self <- get_self ;;
  if (20 <? List.length (remaining_people self))%nat then ask_gender_question
  else if (10 <? List.length (remaining_people self))%nat then
    industry_type <- ask_entertainment_question ;;
    if String.eqb industry_type "entertainment" then
      self <- get_self ;;
      if existsb plays_sport (remaining_people self) then ask_sports_question
      else ask_film_vs_music_question
    else ret tt
  else if (5 <? List.length (remaining_people self))%nat then ask_nationality_question
  else ask_age_question.

(** [play_round]: [true] to continue, [false] when the game is over. *)
Definition play_round : M bool :=
  self <- get_self ;;
  if (List.length (remaining_people self) =? 1)%nat then
    print [FiguredOut; DrumRoll;
           ThePersonIs (name (nth 0 (remaining_people self)
                                  (mkPerson 0 "" "" 0 "" "" "")));
           GuessedIn (questions_asked self)] ;;
    ret false
  else if (List.length (remaining_people self) =? 0)%nat then
    print [NoMatch] ;;
    ret false
  else if (max_questions self <=? questions_asked self)%nat then
    print (OutOfQuestions :: map (fun person => Bullet (name person))
                                 (remaining_people self)) ;;
    ret false
  else
    print [QuestionOf (questions_asked self + 1) (max_questions self);
           RemainingPeople (List.length (remaining_people self))] ;;
    ask_by_size ;;
    ret true.

(** [load_people] on the rows that [get_all_people] returned. *)
Definition load_people (data : list Row) : M bool :=
  fun w =>
    let loaded := map from_tuple data in
    Ok true (mkWorld (mkGame loaded loaded
                             (questions_asked (game w)) (max_questions (game w)))
                     (stdin w) (stdout w ++ [LoadedPeople (List.length loaded)])).

Definition start_new_game (data : list Row) : M bool :=
  loaded <- load_people data ;;
  if negb loaded then ret false
  else
    fun w =>
      let self := game w in
      Ok true (mkWorld (mkGame (people self) (remaining_people self) 0 (max_questions self))
                       (stdin w)
                       (stdout w ++ [Welcome (List.length (people self)) (max_questions self)])).

(** [while self.play_round(): continue], run for at most [fuel] rounds;
    [None] when the loop is still running after [fuel] rounds. *)
Fixpoint round_loop (fuel : nat) (w : World) : option (Res unit) :=
  match fuel with
  | O => None
  | S fuel' =>
      match play_round w with
      | Ok true w' => round_loop fuel' w'
      | Ok false w' => Some (Ok tt w')
      | Raise e w' => Some (Raise e w')
      end
  end.

(** One session of [play_game]: [start_new_game], then the round loop.  The
    play-again dialogue that follows it starts another session. *)
Definition play_game (fuel : nat) (data : list Row) (w : World) : option (Res unit) :=
  match start_new_game data w with
  | Ok true w' => round_loop fuel w'
  | Ok false w' => Some (Ok tt w')
  | Raise e w' => Some (Raise e w')
  end.

(** A fresh engine at a console with [inp] waiting on standard input. *)
Definition console (inp : list string) : World := mkWorld GuessWhoGame_init inp [].

(* ================================================================= *)
(** ** database_manager.py: what is handed to the cursor

    The connection is outside the embedding; what is modelled is the data
    [add_record] prepares for [INSERT] and the statement and parameters
    [get_people_by_criteria] passes to [cursor.execute]. *)

(** [s[0]] *)
Definition first_char (s : string) : Py.result string :=
  match s with
  | EmptyString => Py.Throw Py.IndexError
  | String c _ => Py.Return (String c EmptyString)
  end.

(** The list [processed_data] of [add_record]. *)
Definition processed_data (int_of_str : string -> Py.result Z) (str_of_int : Z -> string)
    (record_data : list Value) : Py.result (list Value) :=
  let* d0 := Py.index record_data 0 in
  let* sno0 := Py.int int_of_str d0 in
  let* d1 := Py.index record_data 1 in
  let* d2 := Py.index record_data 2 in
  let* gender0 := first_char (Str.upper (Py.str str_of_int d2)) in
  let* d3 := Py.index record_data 3 in
  let* age0 := Py.int int_of_str d3 in
  let* d4 := Py.index record_data 4 in
  let* d5 := Py.index record_data 5 in
  let* d6 := Py.index record_data 6 in
  Py.Return [VInt sno0; VStr (Py.str str_of_int d1); VStr gender0; VInt age0;
             VStr (Py.str str_of_int d4); VStr (Str.upper (Py.str str_of_int d5));
             VStr (Py.str str_of_int d6)].

(** [add_record]: [True] when the record was inserted.  [execute] stands for
    [cursor.execute] and [commit] on the prepared row: [true] when they
    return, [false] when they raise the connector's [Error], which the first
    handler turns into [False]; the second handler does the same for
    [ValueError] and [IndexError]; any other exception leaves the function.
    The messages printed are left out. *)
Definition add_record (int_of_str : string -> Py.result Z) (str_of_int : Z -> string)
    (execute : list Value -> bool) (record_data : list Value) : Py.result bool :=
  match processed_data int_of_str str_of_int record_data with
  | Py.Return row => Py.Return (execute row)
  | Py.Throw Py.ValueError => Py.Return false
  | Py.Throw Py.IndexError => Py.Return false
  | Py.Throw e => Py.Throw e
  end.

Definition all_people_query : string := "SELECT * FROM guess_who ORDER BY sno".

(** The loop of [get_people_by_criteria] over the keyword arguments, from
    the lists [conditions] and [values] built so far. *)
Fixpoint collect_conditions (str_of_int : Z -> string)
    (criteria : list (string * Value)) (conditions values : list string)
    : Py.result (list string * list string) :=
  match criteria with
  | [] => Py.Return (conditions, values)
  | (key, value) :: rest =>
      if String.eqb (Str.upper key) "GENDER" then
        let* v := Py.str_method Str.upper value in
        collect_conditions str_of_int rest (conditions ++ ["GENDER = %s"]) (values ++ [v])
      else if String.eqb (Str.upper key) "INDUSTRY" then
        let* v := Py.str_method Str.upper value in
        collect_conditions str_of_int rest (conditions ++ ["INDUSTRY = %s"]) (values ++ [v])
      else if String.eqb (Str.upper key) "OCCUPATION" then
        collect_conditions str_of_int rest
          (conditions ++ ["OCCUPATION LIKE %s"])
          (values ++ [String.append "%" (String.append (Py.str str_of_int value) "%")])
      else collect_conditions str_of_int rest conditions values
  end.

(** The statement and the parameters [get_people_by_criteria] executes; with
    no condition it is [get_all_people]'s statement. *)
Definition get_people_by_criteria (str_of_int : Z -> string)
    (criteria : list (string * Value)) : Py.result (string * list string) :=
  let* cv := collect_conditions str_of_int criteria [] [] in
  match fst cv with
  | [] => Py.Return (all_people_query, [])
  | _ :: _ =>
      Py.Return (String.append "SELECT * FROM guess_who WHERE "
                   (String.append (Py.join " AND " (fst cv)) " ORDER BY sno"),
                 snd cv)
  end.

(* ================================================================= *)
(** ** Vocabulary of the statements *)

(** The world a computation ends in, whether it returned or raised. *)
Definition world_of {A} (r : Res A) : World :=
  match r with Ok _ w => w | Raise _ w => w end.

(** What a computation started with [out] on the console has written since. *)
Definition new_lines {A} (out : list Line) (r : Res A) : list Line :=
  skipn (List.length out) (stdout (world_of r)).

(** The first question put to the player in a stretch of output. *)
Fixpoint first_prompt (ls : list Line) : option string :=
  match ls with
  | [] => None
  | Prompt text :: _ => Some text
  | _ :: rest => first_prompt rest
  end.

(** The answer as the loops see it. *)
Definition normalized (line : string) : string := Str.upper (Str.strip line).

(** [l1] is [l2] with some elements left out, the others in their order. *)
Inductive subseq {A : Type} : list A -> list A -> Prop :=
| subseq_nil : subseq [] []
| subseq_skip : forall x l1 l2, subseq l1 l2 -> subseq l1 (x :: l2)
| subseq_take : forall x l1 l2, subseq l1 l2 -> subseq (x :: l1) (x :: l2).

(** Exactly one of three flags. *)
Definition exactly_one (a b c : bool) : bool :=
  (a && negb b && negb c) || (negb a && b && negb c) || (negb a && negb b && c).

(** The state an answered yes/no question leaves: the question is counted
    and the candidates satisfying [yes] (on Y) or [no] (otherwise) are kept. *)
Definition answered (yes no : Person -> bool) (answer : string)
    (self : GuessWhoGame) : GuessWhoGame :=
  if String.eqb answer "Y" then keep yes (incr_questions_asked self)
  else keep no (incr_questions_asked self).

Definition answered_yn (yes : Person -> bool) : string -> GuessWhoGame -> GuessWhoGame :=
  answered yes (fun p => negb (yes p)).

(** Number of candidates with a given nationality. *)
Definition occurrences (x : string) (l : list Person) : nat :=
  List.length (filter (fun p => String.eqb (nationality p) x) l).

(** The nationality [ask_nationality_question] would ask about. *)
Definition most_common_nationality (l : list Person) : option string :=
  let nationalities := count_nationalities l [] in
  py_max (fun x => dict_get nationalities x 0) (dict_keys nationalities).

(** One step made by the engine: candidates only dropped, in order; the
    counter not lowered; catalogue and budget untouched. *)
Definition advances (g g' : GuessWhoGame) : Prop :=
  subseq (remaining_people g') (remaining_people g) /\
  questions_asked g <= questions_asked g' /\
  max_questions g' = max_questions g /\
  people g' = people g.

(** A computation respects a relation between worlds when the world it
    ends in, returning or raising, is related to the one it started in. *)
Definition respects (R : World -> World -> Prop) {A} (m : M A) : Prop :=
  forall w, R w (world_of (m w)).

(** The messages that answer an invalid line. *)
Definition is_reprompt (l : Line) : bool :=
  match l with PleaseMF | PleaseYN => true | _ => false end.

Definition reprompts (ls : list Line) : nat := List.length (filter is_reprompt ls).

(** The elementary moves of the engine at the console: it writes lines
    without reading; it reads a line it accepts, which counts one question and
    advances the game; it reads a line it rejects, says so once and leaves the
    game alone. *)
Inductive step : World -> World -> Prop :=
| step_print : forall g s o ls,
    reprompts ls = 0 ->
    step (mkWorld g s o) (mkWorld g s (o ++ ls))
| step_answer : forall g g' line s o ls,
    advances g g' -> questions_asked g' = questions_asked g + 1 ->
    reprompts ls = 0 ->
    step (mkWorld g (line :: s) o) (mkWorld g' s (o ++ ls))
| step_reject : forall g line s o ls,
    reprompts ls = 1 ->
    step (mkWorld g (line :: s) o) (mkWorld g s (o ++ ls)).

(** A loop body that counts exactly the answers it accepts. *)
Definition counts_its_answers {A} (body : string -> GuessWhoGame -> LoopStep A) : Prop :=
  forall answer g,
    match body answer g with
    | Break _ g' printed =>
        advances g g' /\ questions_asked g' = questions_asked g + 1
        /\ reprompts printed = 0
    | Continue printed => reprompts printed = 1
    end.

Definition game_advances (w w' : World) : Prop := advances (game w) (game w').

(** Every line read was either rejected with one re-prompt or counted as
    one question. *)
Definition answers_counted (w w' : World) : Prop :=
  exists new,
    stdout w' = stdout w ++ new
    /\ questions_asked (game w') + List.length (stdin w') + reprompts new
       = questions_asked (game w) + List.length (stdin w).

Definition output_extends (w w' : World) : Prop :=
  exists new, stdout w' = stdout w ++ new.

(** A computation whose first output, on every input, is the prompt [text]. *)
Definition prompts_first (text : string) {A} (m : M A) : Prop :=
  forall w, exists rest, stdout (world_of (m w)) = stdout w ++ Prompt text :: rest.

(** The world of a round past its start checks: the two header lines are out. *)
Definition round_opened (w : World) : World :=
  mkWorld (game w) (stdin w)
          (stdout w ++ [QuestionOf (questions_asked (game w) + 1) (max_questions (game w));
                        RemainingPeople (List.length (remaining_people (game w)))]).

(** The four states of a session in the specification's round rule, with
    what a terminal state reveals. *)
Inductive SessionState : Type :=
| InProgress
| Solved (who : Person) (count : nat)
| Exhausted_NoMatch
| Exhausted_BudgetSpent (remaining : list Person).

(** The specification's transition rule, in its priority order: one
    candidate, then none, then the budget, otherwise in progress. *)
Definition spec_transition_rule (self : GuessWhoGame) : SessionState :=
  match remaining_people self with
  | [sole] => Solved sole (questions_asked self)
  | [] => Exhausted_NoMatch
  | _ :: _ :: _ =>
      if (max_questions self <=? questions_asked self)%nat
      then Exhausted_BudgetSpent (remaining_people self)
      else InProgress
  end.

(** How the key list of the counting dictionary grows when a nationality is
    counted: a key seen before stays where it is, a new one goes last. *)
Definition add_key (keys : list string) (k : string) : list string :=
  if Str.mem k keys then keys else keys ++ [k].

(** The nationality that [ask_nationality_question] puts to the player in
    state [self], if it asks at all. *)
Definition nationality_asked (self : GuessWhoGame) : option string :=
  if (List.length (remaining_people self) <=? 2)%nat then None
  else match most_common_nationality (remaining_people self) with
       | Some most_common =>
           if (1 <? dict_get (count_nationalities (remaining_people self) [])
                             most_common 0)%nat
           then Some most_common else None
       | None => None
       end.

(** The closed label set of the specification's data model, and its
    invariant for a person. *)
Definition closed_industries : list string :=
  ["SPORTS"; "POLITICS"; "SCIENCE"; "MUSIC"; "FILM"; "BUSINESS"].

Definition person_invariant (p : Person) : Prop :=
  In (gender p) ["M"; "F"] /\ In (industry p) closed_industries /\ (0 <= age p)%Z.

(** The guards of the two sub-questions of [ask_sports_question], on the
    state each one finds. *)
Definition tennis_fires (self : GuessWhoGame) : bool :=
  (3 <? List.length (remaining_people self))%nat
  && existsb plays_tennis (remaining_people self).

Definition ball_sport_fires (self : GuessWhoGame) : bool :=
  (3 <? List.length (remaining_people self))%nat
  && existsb plays_ball_sport (remaining_people self).

(** A computation that raises the counter by at most [k]. *)
Definition asks_at_most (k : nat) {A} (m : M A) : Prop :=
  forall w, questions_asked (game (world_of (m w))) <= questions_asked (game w) + k.

(** The candidates of [l] divided between two answers: each list is [l]
    thinned out, together they have the length of [l], and every candidate of
    [l] is in one of them and not in both. *)
Definition splits (l on_yes on_no : list Person) : Prop :=
  subseq on_yes l /\ subseq on_no l
  /\ List.length on_yes + List.length on_no = List.length l
  /\ forall p, In p l -> (In p on_yes \/ In p on_no) /\ ~ (In p on_yes /\ In p on_no).

(** The candidates a question leaves when [line] is typed in state [self]. *)
Definition left_by {A} (question : M A) (self : GuessWhoGame) (line : string)
    : list Person :=
  remaining_people (game (world_of (question (mkWorld self [line] [])))).

(** The keys [matches_criteria] looks at. *)
Definition known_keys : list string :=
  ["gender"; "industry"; "occupation"; "nationality"; "age_min"; "age_max"].

(** A criterion whose value has the type its key is used at: text for the
    four text keys, an integer for the two age keys, anything for any other
    key. *)
Definition well_typed (criterion : string * Value) : bool :=
  let key := Str.lower (fst criterion) in
  if Str.mem key ["gender"; "industry"; "occupation"; "nationality"] then
    match snd criterion with VStr _ => true | VInt _ => false end
  else if Str.mem key ["age_min"; "age_max"] then
    match snd criterion with VInt _ => true | VStr _ => false end
  else true.

(** The criterion lets the person pass. *)
Definition accepts (self : Person) (criterion : string * Value) : bool :=
  match criterion_rejects self (fst criterion) (snd criterion) with
  | Py.Return false => true
  | _ => false
  end.

(** The condition [get_people_by_criteria] adds for a keyword, if any. *)
Definition condition_of_key (key : string) : list string :=
  if String.eqb (Str.upper key) "GENDER" then ["GENDER = %s"]
  else if String.eqb (Str.upper key) "INDUSTRY" then ["INDUSTRY = %s"]
  else if String.eqb (Str.upper key) "OCCUPATION" then ["OCCUPATION LIKE %s"]
  else [].

(** The question a round in progress puts first, by the number of
    candidates; [None] where it puts none. *)
Definition first_question (self : GuessWhoGame) : option string :=
  let n := List.length (remaining_people self) in
  if (20 <? n)%nat then Some gender_prompt
  else if (10 <? n)%nat then Some entertainment_prompt
  else if (5 <? n)%nat then option_map nationality_prompt (nationality_asked self)
  else if (2 <? n)%nat then Some age_prompt
  else None.

(** Number of placeholders [%s] in the text of a statement. *)
Fixpoint placeholders (text : string) : nat :=
  match text with
  | EmptyString => 0
  | String c rest =>
      match rest with
      | EmptyString => 0
      | String c' rest' =>
          if (Ascii.eqb c "%" && Ascii.eqb c' "s")%bool then S (placeholders rest')
          else placeholders rest
      end
  end.

(** The text [get_people_by_criteria] builds from its conditions. *)
Definition statement_of (conditions : list string) : string :=
  match conditions with
  | [] => all_people_query
  | _ :: _ =>
      String.append "SELECT * FROM guess_who WHERE "
        (String.append (Py.join " AND " conditions) " ORDER BY sno")
  end.

(* ================================================================= *)
(** ** Sample people, catalogues and states *)

Definition tennis_player : Person :=
  Person_init 3 "Roger Federer" "M" 42 "Tennis" "SPORTS" "Switzerland".

Definition footballer : Person :=
  Person_init 1 "Lionel Messi" "M" 36 "Football" "SPORTS" "Argentina".

Definition singer : Person :=
  Person_init 36 "Taylor Swift" "F" 34 "Singer" "MUSIC" "USA".

Definition actor : Person :=
  Person_init 45 "Tom Hanks" "M" 67 "Actor" "FILM" "USA".

Definition basketballer : Person :=
  Person_init 12 "Michael Jordan" "M" 60 "Basketball" "SPORTS" "USA".

Definition tennis_player_2 : Person :=
  Person_init 4 "Rafael Nadal" "M" 37 "Tennis" "SPORTS" "Spain".

Definition tennis_player_3 : Person :=
  Person_init 7 "Serena Williams" "F" 41 "Tennis" "SPORTS" "USA".

Definition tennis_player_4 : Person :=
  Person_init 8 "Venus Williams" "F" 43 "Tennis" "SPORTS" "USA".

Definition sports_club : list Person :=
  [footballer; tennis_player; tennis_player_2; basketballer; tennis_player_3;
   tennis_player_4].

Definition mixed_table : list Person :=
  [footballer; singer; tennis_player_2; actor; tennis_player; basketballer].

Definition trio : list Person := [footballer; singer; tennis_player].

(** A row the [guess_who] table can hold: [GENDER] is any one character,
    [INDUSTRY] any text, [Age] any integer. *)
Definition odd_row : Row :=
  mkRow 51 (Some "Nobody") (Some "x") (-1) (Some "Painter") (Some "art") (Some "Mars").

(** Eleven footballers, as rows of the table. *)
Definition football_rows : list Row :=
  map (fun i => mkRow i (Some "Player") (Some "M") 30 (Some "Football")
                      (Some "SPORTS") (Some "Argentina"))
      [1; 2; 3; 4; 5; 6; 7; 8; 9; 10; 11]%Z.

(** Twenty-five men. *)
Definition all_male_rows : list Row :=
  map (fun i => mkRow i (Some "Man") (Some "M") 50 (Some "Lawyer")
                      (Some "POLITICS") (Some "India"))
      [1; 2; 3; 4; 5; 6; 7; 8; 9; 10; 11; 12; 13; 14; 15; 16; 17; 18; 19; 20;
       21; 22; 23; 24; 25]%Z.

(** Eleven people of music and film. *)
Definition studio : list Person :=
  [singer; actor; singer; actor; singer; actor; singer; actor; singer; actor; singer].

(** An engine in mid-session. *)
Definition in_session (candidates : list Person) (asked : nat) : GuessWhoGame :=
  mkGame candidates candidates asked 20.

(* ================================================================= *)
(** ** Lists and filters *)

Lemma subseq_refl {A} (l : list A) : subseq l l.
Proof. induction l; constructor; assumption. Qed.

Lemma subseq_trans {A} (l1 l2 l3 : list A) :
  subseq l1 l2 -> subseq l2 l3 -> subseq l1 l3.
Proof.
  intros H12 H23. revert l1 H12.
  induction H23 as [| x l2 l3 H23 IH | x l2 l3 H23 IH]; intros l1 H12.
  - assumption.
  - apply subseq_skip. apply IH. assumption.
  - inversion H12; subst.
    + apply subseq_skip. apply IH. assumption.
    + apply subseq_take. apply IH. assumption.
Qed.

Lemma subseq_length {A} (l1 l2 : list A) :
  subseq l1 l2 -> List.length l1 <= List.length l2.
Proof. induction 1; simpl; lia. Qed.

Lemma subseq_In {A} (l1 l2 : list A) (x : A) :
  subseq l1 l2 -> In x l1 -> In x l2.
Proof.
  induction 1 as [| y l1 l2 H IH | y l1 l2 H IH]; simpl; intros Hin.
  - assumption.
  - right. apply IH. assumption.
  - destruct Hin as [-> | Hin]; [left; reflexivity | right; apply IH; assumption].
Qed.

Lemma filter_subseq {A} (P : A -> bool) (S : list A) : subseq (filter P S) S.
Proof.
  induction S as [| x S IH]; simpl.
  - constructor.
  - destruct (P x); constructor; assumption.
Qed.

Lemma filter_idempotent {A} (P : A -> bool) (S : list A) :
  filter P (filter P S) = filter P S.
Proof.
  induction S as [| x S IH]; simpl.
  - reflexivity.
  - destruct (P x) eqn:Hx; simpl.
    + rewrite Hx, IH. reflexivity.
    + assumption.
Qed.

(** Any subsequence of [S] made of elements satisfying [P] is already inside
    [filter P S]: the filter is the whole of the satisfying subsequence. *)
Lemma filter_greatest {A} (P : A -> bool) (l S : list A) :
  subseq l S -> forallb P l = true -> subseq l (filter P S).
Proof.
  induction 1 as [| x l1 l2 H IH | x l1 l2 H IH]; simpl; intros Hall.
  - constructor.
  - destruct (P x); [apply subseq_skip |]; apply IH; assumption.
  - apply andb_prop in Hall. destruct Hall as [Hx Hall].
    rewrite Hx. apply subseq_take. apply IH. assumption.
Qed.

Lemma filter_all_satisfy {A} (P : A -> bool) (S : list A) :
  forallb P (filter P S) = true.
Proof.
  induction S as [| x S IH]; simpl.
  - reflexivity.
  - destruct (P x) eqn:Hx; simpl; [rewrite Hx |]; assumption.
Qed.

(* ================================================================= *)
(** ** What every engine step respects

    Each primitive step of the engine advances the game, reads at most one
    line and only adds to the output.  A relation between worlds that is
    reflexive, transitive and holds across such a step holds across every
    question, across [ask_by_size] and across [play_round], however they
    end. *)

Lemma advances_refl g : advances g g.
Proof. repeat split; auto using subseq_refl. Qed.

Lemma advances_trans g1 g2 g3 : advances g1 g2 -> advances g2 g3 -> advances g1 g3.
Proof.
  intros (S1 & Q1 & M1 & P1) (S2 & Q2 & M2 & P2). repeat split.
  - eapply subseq_trans; eassumption.
  - lia.
  - congruence.
  - congruence.
Qed.

Lemma advances_keep_incr cond g : advances g (keep cond (incr_questions_asked g)).
Proof.
  repeat split; simpl.
  - apply filter_subseq.
  - lia.
Qed.

Lemma advances_incr_keep cond g : advances g (incr_questions_asked (keep cond g)).
Proof.
  repeat split; simpl.
  - apply filter_subseq.
  - lia.
Qed.

Lemma yes_no_body_counts yes no : counts_its_answers (yes_no_body yes no).
Proof.
  intros answer g. unfold yes_no_body.
  destruct (Str.mem answer _); [| reflexivity].
  destruct (String.eqb answer "Y");
    (split; [apply advances_keep_incr | split; reflexivity]).
Qed.

Lemma reprompts_bullets (l : list Person) :
  reprompts (OutOfQuestions :: map (fun person => Bullet (name person)) l) = 0.
Proof. unfold reprompts. simpl. induction l; simpl; auto. Qed.

Create HintDb engine.

Section EngineSteps.

Variable R : World -> World -> Prop.
Hypothesis R_refl : forall w, R w w.
Hypothesis R_trans : forall w1 w2 w3, R w1 w2 -> R w2 w3 -> R w1 w3.
Hypothesis R_step : forall w w', step w w' -> R w w'.

Lemma respects_ret {A} (a : A) : respects R (ret a).
Proof. intros w. apply R_refl. Qed.

Lemma respects_raise {A} (e : Exn) : respects R (fun w => @Raise A e w).
Proof. intros w. apply R_refl. Qed.

Lemma respects_get_self : respects R get_self.
Proof. intros w. apply R_refl. Qed.

Lemma respects_print ls : reprompts ls = 0 -> respects R (print ls).
Proof. intros H [g s o]. simpl. apply R_step, step_print. assumption. Qed.

Lemma respects_bind {A B} (m : M A) (k : A -> M B) :
  respects R m -> (forall a, respects R (k a)) -> respects R (bind m k).
Proof.
  intros Hm Hk w. unfold bind. specialize (Hm w).
  destruct (m w) as [a w' | e w']; simpl in *.
  - eapply R_trans; [eassumption | apply Hk].
  - assumption.
Qed.

Lemma while_input_respects {A} prompt (body : string -> GuessWhoGame -> LoopStep A) :
  counts_its_answers body ->
  forall inp g out,
    R (mkWorld g inp out) (world_of (while_input prompt body inp g out)).
Proof.
  intros Hbody. induction inp as [| line rest IH]; intros g out; simpl.
  - apply R_step, step_print. reflexivity.
  - specialize (Hbody (Str.upper (Str.strip line)) g).
    destruct (body _ g) as [a g' printed | printed]; simpl.
    + destruct Hbody as (Hadv & Hq & Hp).
      apply R_step, step_answer; assumption.
    + eapply R_trans; [| apply IH].
      apply R_step, step_reject. assumption.
Qed.

Lemma respects_input_loop {A} prompt (body : string -> GuessWhoGame -> LoopStep A) :
  counts_its_answers body -> respects R (input_loop prompt body).
Proof. intros Hbody [g s o]. apply while_input_respects. assumption. Qed.

Lemma respects_yes_no prompt yes no :
  respects R (input_loop prompt (yes_no_body yes no)).
Proof. apply respects_input_loop, yes_no_body_counts. Qed.

#[local] Hint Resolve respects_ret respects_raise respects_get_self respects_print
  respects_yes_no reprompts_bullets : engine.

Ltac respects_step :=
  repeat first
    [ solve [ auto with engine ]
    | progress cbv zeta
    | match goal with |- respects _ (if ?c then _ else _) => destruct c end
    | match goal with |- respects _ (match ?c with _ => _ end) => destruct c end
    | apply respects_bind; [| intros ? ] ].

Lemma respects_ask_gender_question : respects R ask_gender_question.
Proof.
  apply respects_input_loop. intros answer g.
  destruct (Str.mem answer _); [| reflexivity].
  split; [apply advances_incr_keep | split; reflexivity].
Qed.

Lemma respects_ask_entertainment_question : respects R ask_entertainment_question.
Proof.
  apply respects_input_loop. intros answer g.
  destruct (Str.mem answer _); [| reflexivity].
  destruct (String.eqb answer "Y");
    (split; [apply advances_keep_incr | split; reflexivity]).
Qed.

Lemma respects_ask_tennis_question : respects R _ask_tennis_question.
Proof. unfold _ask_tennis_question. auto with engine. Qed.

Lemma respects_ask_ball_sport_question : respects R _ask_ball_sport_question.
Proof. unfold _ask_ball_sport_question. auto with engine. Qed.

Lemma respects_ask_film_vs_music_question : respects R ask_film_vs_music_question.
Proof. unfold ask_film_vs_music_question. auto with engine. Qed.

#[local] Hint Resolve respects_ask_gender_question respects_ask_entertainment_question
  respects_ask_tennis_question respects_ask_ball_sport_question
  respects_ask_film_vs_music_question : engine.

Lemma respects_ask_sports_question : respects R ask_sports_question.
Proof. unfold ask_sports_question. respects_step. Qed.

Lemma respects_ask_age_question : respects R ask_age_question.
Proof. unfold ask_age_question. respects_step. Qed.

Lemma respects_ask_nationality_question : respects R ask_nationality_question.
Proof. unfold ask_nationality_question. respects_step. Qed.

#[local] Hint Resolve respects_ask_sports_question respects_ask_age_question
  respects_ask_nationality_question : engine.

Lemma respects_ask_by_size : respects R ask_by_size.
Proof. unfold ask_by_size. respects_step. Qed.

#[local] Hint Resolve respects_ask_by_size : engine.

Lemma respects_play_round : respects R play_round.
Proof. unfold play_round. respects_step. Qed.

End EngineSteps.

(** The two relations used below. *)

Lemma game_advances_refl w : game_advances w w.
Proof. apply advances_refl. Qed.

Lemma game_advances_trans w1 w2 w3 :
  game_advances w1 w2 -> game_advances w2 w3 -> game_advances w1 w3.
Proof. apply advances_trans. Qed.

Lemma game_advances_step w w' : step w w' -> game_advances w w'.
Proof.
  intros [g s o ls H | g g' line s o ls Hadv Hq H | g line s o ls H];
    unfold game_advances; simpl; auto using advances_refl.
Qed.

Lemma output_extends_refl w : output_extends w w.
Proof. exists []. rewrite app_nil_r. reflexivity. Qed.

Lemma output_extends_trans w1 w2 w3 :
  output_extends w1 w2 -> output_extends w2 w3 -> output_extends w1 w3.
Proof.
  intros [n1 H1] [n2 H2]. exists (n1 ++ n2).
  rewrite H2, H1, app_assoc. reflexivity.
Qed.

Lemma output_extends_step w w' : step w w' -> output_extends w w'.
Proof.
  intros [g s o ls H | g g' line s o ls Hadv Hq H | g line s o ls H];
    exists ls; reflexivity.
Qed.

Lemma reprompts_app (l1 l2 : list Line) :
  reprompts (l1 ++ l2) = reprompts l1 + reprompts l2.
Proof. unfold reprompts. rewrite filter_app, length_app. reflexivity. Qed.

Lemma answers_counted_refl w : answers_counted w w.
Proof.
  exists []. rewrite app_nil_r. split; [reflexivity |].
  change (reprompts []) with 0. lia.
Qed.

Lemma answers_counted_trans w1 w2 w3 :
  answers_counted w1 w2 -> answers_counted w2 w3 -> answers_counted w1 w3.
Proof.
  intros (n1 & H1 & C1) (n2 & H2 & C2). exists (n1 ++ n2). split.
  - rewrite H2, H1, app_assoc. reflexivity.
  - rewrite reprompts_app. lia.
Qed.

Lemma answers_counted_step w w' : step w w' -> answers_counted w w'.
Proof.
  intros [g s o ls H | g g' line s o ls Hadv Hq H | g line s o ls H];
    exists ls; (split; [reflexivity | cbn [game stdin stdout List.length]; lia]).
Qed.

Lemma play_round_advances : respects game_advances play_round.
Proof.
  apply respects_play_round;
    [exact game_advances_refl | exact game_advances_trans | exact game_advances_step].
Qed.

Lemma play_round_answers_counted : respects answers_counted play_round.
Proof.
  apply respects_play_round;
    [exact answers_counted_refl | exact answers_counted_trans
     | exact answers_counted_step].
Qed.

(* ================================================================= *)
(** ** Person predicates *)

(** C9: for every person, [is_in_entertainment] holds exactly when exactly
    one of [plays_sport], [is_in_music], [is_in_film] holds, and these three
    are pairwise exclusive: each tests the one [industry] field against a
    label of its own. *)
Theorem entertainment_is_exactly_one_of_three (p : Person) :
  is_in_entertainment p = exactly_one (plays_sport p) (is_in_music p) (is_in_film p)
  /\ plays_sport p && is_in_music p = false
  /\ plays_sport p && is_in_film p = false
  /\ is_in_music p && is_in_film p = false.
Proof.
  unfold is_in_entertainment, plays_sport, is_in_music, is_in_film,
    entertainment_industries, Str.mem. simpl existsb.
  destruct (String.eqb_spec (industry p) "SPORTS") as [E | _].
  - rewrite E. repeat split; reflexivity.
  - destruct (String.eqb_spec (industry p) "MUSIC") as [E | _].
    + rewrite E. repeat split; reflexivity.
    + destruct (String.eqb (industry p) "FILM"); repeat split; reflexivity.
Qed.

(** C10: whoever plays tennis plays a ball sport: "tennis" is one of the
    keywords of [ball_sports], searched in the same lower-cased occupation. *)
Theorem tennis_is_a_ball_sport (p : Person) :
  plays_tennis p = true -> plays_ball_sport p = true.
Proof.
  unfold plays_tennis, plays_ball_sport, ball_sports. intros H.
  simpl existsb. rewrite H.
  rewrite !orb_true_r. reflexivity.
Qed.

Lemma tennis_is_a_ball_sport_witness :
  plays_tennis tennis_player = true /\ plays_ball_sport tennis_player = true.
Proof.
  split; [reflexivity | apply (tennis_is_a_ball_sport tennis_player); reflexivity].
Defined.

(* ================================================================= *)
(** ** Candidate filtering *)

(** C6: filtering a candidate list by any predicate gives the subsequence of
    the elements that satisfy it, in their original order, and is idempotent;
    every question keeps candidates through such a filter, so a round of the
    game never enlarges the candidate list. *)
Theorem filter_is_ordered_subsequence_and_rounds_never_grow :
  (forall (P : Person -> bool) (S : list Person),
      subseq (filter P S) S
      /\ forallb P (filter P S) = true
      /\ (forall l, subseq l S -> forallb P l = true -> subseq l (filter P S))
      /\ filter P (filter P S) = filter P S)
  /\ (forall (P : Person -> bool) (self : GuessWhoGame),
         remaining_people (keep P self) = filter P (remaining_people self))
  /\ (forall w : World,
         subseq (remaining_people (game (world_of (play_round w))))
                (remaining_people (game w))
         /\ List.length (remaining_people (game (world_of (play_round w))))
            <= List.length (remaining_people (game w))).
Proof.
  split; [| split].
  - intros P S. repeat split.
    + apply filter_subseq.
    + apply filter_all_satisfy.
    + intros l. apply filter_greatest.
    + apply filter_idempotent.
  - reflexivity.
  - intros w. destruct (play_round_advances w) as (Hsub & _).
    split; [assumption | apply subseq_length; assumption].
Qed.

(* ================================================================= *)
(** ** The input loop *)

Lemma while_input_invalid {A} prompt (body : string -> GuessWhoGame -> LoopStep A)
    bad inp g out printed :
  body (normalized bad) g = Continue printed ->
  while_input prompt body (bad :: inp) g out
  = while_input prompt body inp g (out ++ Prompt prompt :: printed).
Proof. unfold normalized. intros H. simpl. rewrite H. reflexivity. Qed.

Lemma while_input_valid {A} prompt (body : string -> GuessWhoGame -> LoopStep A)
    line inp g out a g' printed :
  body (normalized line) g = Break a g' printed ->
  while_input prompt body (line :: inp) g out
  = Ok a (mkWorld g' inp (out ++ Prompt prompt :: printed)).
Proof. unfold normalized. intros H. simpl. rewrite H. reflexivity. Qed.

Lemma yes_no_body_invalid yes no answer g :
  Str.mem answer ["Y"; "N"] = false -> yes_no_body yes no answer g = Continue [PleaseYN].
Proof. unfold yes_no_body. intros ->. reflexivity. Qed.

Lemma yes_no_body_valid yes no answer g :
  Str.mem answer ["Y"; "N"] = true ->
  yes_no_body yes no answer g = Break tt (answered yes no answer g) [].
Proof.
  unfold yes_no_body, answered. intros ->.
  destruct (String.eqb answer "Y"); reflexivity.
Qed.

Lemma yes_no_invalid prompt yes no bad inp g out :
  Str.mem (normalized bad) ["Y"; "N"] = false ->
  input_loop prompt (yes_no_body yes no) (mkWorld g (bad :: inp) out)
  = input_loop prompt (yes_no_body yes no)
      (mkWorld g inp (out ++ [Prompt prompt; PleaseYN])).
Proof.
  intros H. unfold input_loop. cbn [stdin game stdout].
  apply while_input_invalid. apply yes_no_body_invalid. assumption.
Qed.

Lemma yes_no_valid prompt yes no line inp g out :
  Str.mem (normalized line) ["Y"; "N"] = true ->
  input_loop prompt (yes_no_body yes no) (mkWorld g (line :: inp) out)
  = Ok tt (mkWorld (answered yes no (normalized line) g) inp (out ++ [Prompt prompt])).
Proof.
  intros H. unfold input_loop. cbn [stdin game stdout].
  apply while_input_valid. apply yes_no_body_valid. assumption.
Qed.

(* ================================================================= *)
(** ** Invalid answers *)

(** C7: an answer outside the allowed set (M/F for the gender question, Y/N
    for every other one) is answered by the re-prompt message and the same
    question again, in the same engine state: the counter and the candidates
    are those from before the invalid line. *)
Theorem invalid_answer_reprompts_without_advancing
    (bad : string) (inp : list string) (self : GuessWhoGame) (out : list Line) :
  let before := mkWorld self (bad :: inp) out in
  let again prompt please := mkWorld self inp (out ++ [Prompt prompt; please]) in
  (Str.mem (normalized bad) ["M"; "F"] = false ->
     ask_gender_question before = ask_gender_question (again gender_prompt PleaseMF))
  /\ (Str.mem (normalized bad) ["Y"; "N"] = false ->
     ask_entertainment_question before
       = ask_entertainment_question (again entertainment_prompt PleaseYN)
     /\ (existsb plays_sport (remaining_people self) = true ->
         ask_sports_question before
           = ask_sports_question (again sports_prompt PleaseYN))
     /\ _ask_tennis_question before
          = _ask_tennis_question (again tennis_prompt PleaseYN)
     /\ _ask_ball_sport_question before
          = _ask_ball_sport_question (again ball_sport_prompt PleaseYN)
     /\ ask_film_vs_music_question before
          = ask_film_vs_music_question (again film_vs_music_prompt PleaseYN)
     /\ (forall most_common, nationality_asked self = Some most_common ->
         ask_nationality_question before
           = ask_nationality_question
               (again (nationality_prompt most_common) PleaseYN))
     /\ (2 < List.length (remaining_people self) ->
         ask_age_question before = ask_age_question (again age_prompt PleaseYN))).
Proof.
  intros before again. split.
  - intros H. unfold ask_gender_question, input_loop, before, again.
    cbn [stdin game stdout]. apply while_input_invalid. rewrite H. reflexivity.
  - intros H. repeat split.
    + unfold ask_entertainment_question, input_loop, before, again.
      cbn [stdin game stdout]. apply while_input_invalid. rewrite H. reflexivity.
    + intros Hs. unfold ask_sports_question, bind, get_self, before, again.
      cbn [game]. rewrite Hs. cbn [negb].
      rewrite (yes_no_invalid sports_prompt _ _ bad inp self out H). reflexivity.
    + apply yes_no_invalid. assumption.
    + apply yes_no_invalid. assumption.
    + apply yes_no_invalid. assumption.
    + intros mc Hmc. unfold nationality_asked, most_common_nationality in Hmc.
      unfold ask_nationality_question, bind, get_self, before, again.
      cbn [game]. cbv zeta in *.
      destruct (List.length (remaining_people self) <=? 2)%nat; [discriminate |].
      destruct (py_max _ _) as [mc' |]; [| discriminate].
      destruct (1 <? _)%nat; [| discriminate].
      injection Hmc as ->. apply yes_no_invalid. assumption.
    + intros Hlen. unfold ask_age_question, bind, get_self, before, again.
      cbn [game].
      destruct (Nat.leb_spec (List.length (remaining_people self)) 2) as [Hle | _];
        [lia |].
      apply yes_no_invalid. assumption.
Qed.

Lemma invalid_answer_reprompts_without_advancing_witness :
  let self := in_session [footballer; singer; actor; tennis_player] 0 in
  let before := mkWorld self ["maybe"; "y"] [] in
  let again prompt please := mkWorld self ["y"] [Prompt prompt; please] in
  ask_gender_question before = ask_gender_question (again gender_prompt PleaseMF)
  /\ ask_entertainment_question before
     = ask_entertainment_question (again entertainment_prompt PleaseYN)
  /\ ask_sports_question before = ask_sports_question (again sports_prompt PleaseYN)
  /\ ask_nationality_question before
     = ask_nationality_question (again (nationality_prompt "USA") PleaseYN)
  /\ ask_age_question before = ask_age_question (again age_prompt PleaseYN).
Proof.
  intros self before again.
  destruct (invalid_answer_reprompts_without_advancing "maybe" ["y"] self [])
    as [Hmf Hyn].
  destruct (Hyn eq_refl) as (He & Hs & _ & _ & _ & Hn & Ha).
  split; [exact (Hmf eq_refl) |].
  split; [exact He |].
  split; [exact (Hs eq_refl) |].
  split; [exact (Hn "USA" eq_refl) |].
  apply Ha. simpl. lia.
Defined.

(* ================================================================= *)
(** ** The checks at the start of a round *)

(** [play_round] by the cases of the specification's transition rule: the
    three checks that end the game, in their order, each leaving the engine
    and standard input as they were, and the rest of the function. *)
Lemma play_round_cases (w : World) :
  play_round w =
  match spec_transition_rule (game w) with
  | Solved sole count =>
      Ok false (mkWorld (game w) (stdin w)
                  (stdout w ++ [FiguredOut; DrumRoll; ThePersonIs (name sole);
                                GuessedIn count]))
  | Exhausted_NoMatch =>
      Ok false (mkWorld (game w) (stdin w) (stdout w ++ [NoMatch]))
  | Exhausted_BudgetSpent remaining =>
      Ok false (mkWorld (game w) (stdin w)
                  (stdout w ++ OutOfQuestions
                             :: map (fun person => Bullet (name person)) remaining))
  | InProgress =>
      (print [QuestionOf (questions_asked (game w) + 1) (max_questions (game w));
              RemainingPeople (List.length (remaining_people (game w)))] ;;
       ask_by_size ;;
       ret true) w
  end.
Proof.
  unfold play_round, spec_transition_rule, bind at 1, get_self.
  destruct (remaining_people (game w)) as [| a [| b l]] eqn:Hrem.
  - reflexivity.
  - reflexivity.
  - cbn [List.length Nat.eqb].
    destruct (max_questions (game w) <=? questions_asked (game w))%nat;
      reflexivity.
Qed.

(** The specification's example: candidates A, B, C with the counter at the
    budget are listed as A, B, C. *)
Example budget_spent_lists_candidates_in_order :
  play_round (mkWorld (in_session [footballer; singer; actor] 20) ["y"] [])
  = Ok false (mkWorld (in_session [footballer; singer; actor] 20) ["y"]
                [OutOfQuestions; Bullet "Lionel Messi"; Bullet "Taylor Swift";
                 Bullet "Tom Hanks"]).
Proof. reflexivity. Qed.

(** A sole candidate is announced even when the budget is spent. *)
Example solved_takes_priority_over_budget :
  play_round (mkWorld (in_session [singer] 20) [] [])
  = Ok false (mkWorld (in_session [singer] 20) []
                [FiguredOut; DrumRoll; ThePersonIs "Taylor Swift"; GuessedIn 20]).
Proof. reflexivity. Qed.

(* ================================================================= *)
(** ** The sports branch *)

(** C8: once the plays-sports question is answered, the tennis question is
    put exactly when more than 3 candidates remain and one of them plays
    tennis, and then, on the candidates left at that point, the ball-sport
    question exactly when more than 3 remain and one plays a ball sport.  Each
    question put reads one answer and counts as one question; with 3 or fewer
    candidates after the sports answer neither is put; there are states in
    which both are. *)
Theorem sports_follow_up_questions :
  (forall (self : GuessWhoGame) (a t b : string) (inp : list string) (out : list Line),
      existsb plays_sport (remaining_people self) = true ->
      Str.mem (normalized a) ["Y"; "N"] = true ->
      Str.mem (normalized t) ["Y"; "N"] = true ->
      Str.mem (normalized b) ["Y"; "N"] = true ->
      let g1 := answered_yn plays_sport (normalized a) self in
      let tennis := tennis_fires g1 in
      let g2 := if tennis then answered_yn plays_tennis (normalized t) g1 else g1 in
      let ball := ball_sport_fires g2 in
      let g3 := if ball then answered_yn plays_ball_sport (normalized b) g2 else g2 in
      ask_sports_question
        (mkWorld self
           (a :: (if tennis then [t] else []) ++ (if ball then [b] else []) ++ inp)
           out)
      = Ok tt (mkWorld g3 inp
                 (out ++ Prompt sports_prompt
                      :: (if tennis then [Prompt tennis_prompt] else [])
                      ++ (if ball then [Prompt ball_sport_prompt] else [])))
      /\ questions_asked g3
         = questions_asked self + 1 + Nat.b2n tennis + Nat.b2n ball
      /\ (List.length (remaining_people g1) <= 3 -> tennis = false /\ ball = false)
      /\ (List.length (remaining_people g2) <= 3 -> ball = false))
  /\ (exists (self : GuessWhoGame) (a t : string),
         existsb plays_sport (remaining_people self) = true
         /\ tennis_fires (answered_yn plays_sport (normalized a) self) = true
         /\ ball_sport_fires
              (answered_yn plays_tennis (normalized t)
                 (answered_yn plays_sport (normalized a) self)) = true).
Proof.
  split.
  - intros self a t b inp out Hs Ha Ht Hb g1 tennis g2 ball g3.
    split; [| split; [| split]].
    + unfold ask_sports_question, bind at 1, get_self. cbn [game].
      rewrite Hs. cbn [negb]. unfold bind at 1.
      rewrite (yes_no_valid sports_prompt _ _ a _ self out Ha).
      fold (answered_yn plays_sport (normalized a) self). fold g1.
      unfold bind at 1. cbn [game]. unfold bind at 1.
      fold (tennis_fires g1). fold tennis.
      assert (Hstep2 : forall w2 : World,
                 game w2 = g2 -> stdin w2 = (if ball then [b] else []) ++ inp ->
                 bind get_self (fun self0 =>
                   if (3 <? List.length (remaining_people self0))%nat
                      && existsb plays_ball_sport (remaining_people self0)
                   then _ask_ball_sport_question else ret tt) w2
                 = Ok tt (mkWorld g3 inp
                            (stdout w2 ++ (if ball then [Prompt ball_sport_prompt]
                                           else [])))).
      { intros [g s o] Hg Hin. cbn [game stdin stdout] in *. subst g s.
        unfold bind, get_self. cbn [game].
        fold (ball_sport_fires g2). fold ball. unfold g3.
        destruct ball.
        - unfold _ask_ball_sport_question.
          apply (yes_no_valid ball_sport_prompt _ _ b inp g2 o Hb).
        - unfold ret. rewrite app_nil_r. reflexivity. }
      destruct tennis.
      * unfold _ask_tennis_question.
        cbn [app].
        rewrite (yes_no_valid tennis_prompt _ _ t _ g1 _ Ht).
        rewrite Hstep2; [| reflexivity | reflexivity].
        cbn [stdout]. rewrite <- !app_assoc. reflexivity.
      * unfold ret at 1. cbn [app].
        rewrite Hstep2; [| reflexivity | reflexivity].
        cbn [stdout]. rewrite <- app_assoc. reflexivity.
    + unfold g3, g2, g1, answered_yn, answered.
      destruct ball, tennis; cbn [Nat.b2n];
        repeat match goal with
               | |- context [String.eqb ?x "Y"] => destruct (String.eqb x "Y")
               end; simpl; lia.
    + intros Hlen.
      assert (Ht0 : tennis = false).
      { unfold tennis, tennis_fires.
        destruct (Nat.ltb_spec 3 (List.length (remaining_people g1))); [lia |].
        reflexivity. }
      split; [assumption |].
      unfold ball, ball_sport_fires, g2. rewrite Ht0.
      destruct (Nat.ltb_spec 3 (List.length (remaining_people g1))); [lia |].
      reflexivity.
    + intros Hlen. unfold ball, ball_sport_fires.
      destruct (Nat.ltb_spec 3 (List.length (remaining_people g2))); [lia |].
      reflexivity.
  - exists (in_session sports_club 1), "y", "y".
    repeat split; reflexivity.
Qed.

Lemma sports_follow_up_questions_witness :
  let self := in_session sports_club 1 in
  ask_sports_question (mkWorld self [" y"; "Y "; "n"; "next"] [])
  = Ok tt (mkWorld (mkGame sports_club [] 4 20) ["next"]
             [Prompt sports_prompt; Prompt tennis_prompt; Prompt ball_sport_prompt]).
Proof.
  intros self.
  destruct sports_follow_up_questions as [H _].
  destruct (H self " y" "Y " "n" ["next"] [] eq_refl eq_refl eq_refl eq_refl)
    as [Hrun _].
  exact Hrun.
Defined.

(* ================================================================= *)
(** ** The nationality question *)

Lemma mem_In (x : string) (xs : list string) : Str.mem x xs = true <-> In x xs.
Proof.
  unfold Str.mem. rewrite existsb_exists. split.
  - intros (y & Hy & Heq). apply String.eqb_eq in Heq. subst. assumption.
  - intros H. exists x. split; [assumption | apply String.eqb_refl].
Qed.

Lemma In_add_key (keys : list string) (k y : string) :
  In y (add_key keys k) <-> In y keys \/ y = k.
Proof.
  unfold add_key. destruct (Str.mem k keys) eqn:Hm.
  - apply mem_In in Hm. split; [auto |]. intros [H | ->]; assumption.
  - rewrite in_app_iff. simpl. split.
    + intros [H | [H | []]]; auto.
    + intros [H | ->]; auto.
Qed.

Lemma dict_get_set (d : Dict) (k k' : string) (v default : nat) :
  dict_get (dict_set d k v) k' default
  = if String.eqb k k' then v else dict_get d k' default.
Proof.
  induction d as [| [k0 v0] rest IH]; simpl.
  - reflexivity.
  - destruct (String.eqb_spec k0 k) as [-> | Hne]; simpl.
    + destruct (String.eqb k k'); reflexivity.
    + rewrite IH. destruct (String.eqb_spec k0 k') as [-> | Hne'].
      * destruct (String.eqb_spec k k') as [-> | _]; [congruence | reflexivity].
      * reflexivity.
Qed.

Lemma dict_keys_set (d : Dict) (k : string) (v : nat) :
  dict_keys (dict_set d k v) = add_key (dict_keys d) k.
Proof.
  unfold dict_keys, add_key, Str.mem.
  induction d as [| [k0 v0] rest IH]; simpl.
  - reflexivity.
  - rewrite (String.eqb_sym k k0).
    destruct (String.eqb k0 k); simpl.
    + reflexivity.
    + rewrite IH. destruct (existsb _ _); reflexivity.
Qed.

Lemma count_nationalities_get (l : list Person) (d : Dict) (x : string) :
  dict_get (count_nationalities l d) x 0 = dict_get d x 0 + occurrences x l.
Proof.
  revert d. unfold occurrences.
  induction l as [| p rest IH]; intros d; simpl.
  - lia.
  - rewrite IH, dict_get_set.
    destruct (String.eqb_spec (nationality p) x) as [-> | Hne]; simpl; lia.
Qed.

Lemma count_nationalities_keys (l : list Person) (d : Dict) :
  dict_keys (count_nationalities l d)
  = fold_left add_key (map nationality l) (dict_keys d).
Proof.
  revert d. induction l as [| p rest IH]; intros d; simpl.
  - reflexivity.
  - rewrite IH, dict_keys_set. reflexivity.
Qed.

Lemma fold_add_key_extends (xs keys : list string) :
  exists ext, fold_left add_key xs keys = keys ++ ext.
Proof.
  revert keys. induction xs as [| x xs IH]; intros keys; simpl.
  - exists []. rewrite app_nil_r. reflexivity.
  - destruct (IH (add_key keys x)) as [ext Hext]. rewrite Hext.
    unfold add_key. destruct (Str.mem x keys).
    + exists ext. reflexivity.
    + exists ([x] ++ ext). rewrite app_assoc. reflexivity.
Qed.

Lemma In_fold_add_key (xs keys : list string) (y : string) :
  In y (fold_left add_key xs keys) <-> In y keys \/ In y xs.
Proof.
  revert keys. induction xs as [| x xs IH]; intros keys; simpl.
  - tauto.
  - rewrite IH, In_add_key. intuition congruence.
Qed.

(** Keys present before a stretch of counting stay in front of any key the
    counting adds. *)
Lemma fold_add_key_old_first (xs keys k1 k2 : list string) (m : string) :
  fold_left add_key xs keys = k1 ++ m :: k2 ->
  ~ In m keys ->
  forall y, In y keys -> In y k1.
Proof.
  intros Heq Hm y Hy.
  destruct (fold_add_key_extends xs keys) as [ext Hext].
  rewrite Hext in Heq.
  apply app_eq_app in Heq. destruct Heq as [l' [[H1 H2] | [H1 H2]]].
  - destruct l' as [| z l'].
    + rewrite app_nil_r in H1. subst. assumption.
    + simpl in H2. injection H2 as -> _.
      exfalso. apply Hm. rewrite H1. apply in_or_app. right. left. reflexivity.
  - rewrite H1. apply in_or_app. left. assumption.
Qed.

(** A key added by the counting was first met, in the counted list, after
    everything that is not in front of it among the keys. *)
Lemma fold_add_key_first_seen (xs keys k1 k2 : list string) (m : string) :
  fold_left add_key xs keys = k1 ++ m :: k2 ->
  ~ In m keys ->
  exists pre post,
    xs = pre ++ m :: post /\ ~ In m pre /\ forall y, In y pre -> In y k1.
Proof.
  revert keys. induction xs as [| x xs IH]; intros keys Heq Hm.
  - simpl in Heq. exfalso. apply Hm. rewrite Heq.
    apply in_or_app. right. left. reflexivity.
  - simpl in Heq. destruct (String.eqb_spec x m) as [-> | Hne].
    + exists [], xs. repeat split; simpl; tauto.
    + assert (Hm' : ~ In m (add_key keys x)).
      { rewrite In_add_key. intros [H | H]; [tauto | congruence]. }
      destruct (IH _ Heq Hm') as (pre & post & Hxs & Hpre & Hk1).
      exists (x :: pre), post. repeat split.
      * simpl. rewrite Hxs. reflexivity.
      * simpl. intros [H | H]; [congruence | tauto].
      * intros y [<- | Hy]; [| apply Hk1; assumption].
        apply (fold_add_key_old_first _ _ _ _ _ Heq Hm').
        apply In_add_key. right. reflexivity.
Qed.

(** [max_scan] returns the first element of greatest key. *)
Lemma max_scan_first_greatest (key : string -> nat) (l : list string) (best : string) :
  exists l1 l2,
    best :: l = l1 ++ max_scan key best l :: l2
    /\ (forall y, In y l1 -> key y < key (max_scan key best l))
    /\ (forall y, In y l2 -> key y <= key (max_scan key best l)).
Proof.
  revert best. induction l as [| x rest IH]; intros best; simpl.
  - exists [], []. repeat split; simpl; tauto.
  - destruct (Nat.ltb_spec (key best) (key x)) as [Hlt | Hge].
    + destruct (IH x) as (l1 & l2 & Heq & H1 & H2).
      set (m := max_scan key x rest) in *.
      assert (Hx : key x <= key m).
      { assert (Hin : In x (l1 ++ m :: l2)) by (rewrite <- Heq; left; reflexivity).
        apply in_app_or in Hin. destruct Hin as [Hin | [Hm | Hin]].
        - apply H1 in Hin. lia.
        - rewrite <- Hm. lia.
        - apply H2. assumption. }
      exists (best :: l1), l2. repeat split.
      * simpl. rewrite Heq. reflexivity.
      * intros y [<- | Hy]; [lia | apply H1; assumption].
      * assumption.
    + destruct (IH best) as (l1 & l2 & Heq & H1 & H2).
      set (m := max_scan key best rest) in *.
      destruct l1 as [| b l1].
      * simpl in Heq. injection Heq as Hb Hrest.
        exists [], (x :: l2). repeat split.
        -- simpl. rewrite <- Hb, Hrest. reflexivity.
        -- simpl. tauto.
        -- intros y [<- | Hy]; [rewrite <- Hb; lia | apply H2; assumption].
      * simpl in Heq. injection Heq as Hb Hrest. subst b.
        exists (best :: x :: l1), l2. repeat split.
        -- simpl. rewrite Hrest. reflexivity.
        -- intros y [<- | [<- | Hy]].
           ++ apply H1. left. reflexivity.
           ++ assert (key best < key m) by (apply H1; left; reflexivity). lia.
           ++ apply H1. right. assumption.
        -- assumption.
Qed.

Lemma occurrences_absent (x : string) (l : list Person) :
  ~ In x (map nationality l) -> occurrences x l = 0.
Proof.
  unfold occurrences. induction l as [| p rest IH]; simpl; intros H.
  - reflexivity.
  - destruct (String.eqb_spec (nationality p) x) as [E | _].
    + exfalso. apply H. left. assumption.
    + apply IH. intros Hin. apply H. right. assumption.
Qed.

(** The nationality asked about is the first one met among those of
    greatest count. *)
Lemma most_common_is_first_plurality (l : list Person) :
  l <> [] ->
  exists most_common pre post,
    most_common_nationality l = Some most_common
    /\ map nationality l = pre ++ most_common :: post
    /\ ~ In most_common pre
    /\ (forall y, In y pre -> occurrences y l < occurrences most_common l)
    /\ (forall y, occurrences y l <= occurrences most_common l)
    /\ dict_get (count_nationalities l []) most_common 0 = occurrences most_common l.
Proof.
  intros Hne. unfold most_common_nationality. cbv zeta.
  rewrite count_nationalities_keys. simpl dict_keys.
  set (key := fun x => dict_get (count_nationalities l []) x 0).
  assert (Hkey : forall x, key x = occurrences x l).
  { intros x. unfold key. rewrite count_nationalities_get. reflexivity. }
  destruct (fold_left add_key (map nationality l) []) as [| k0 ks] eqn:Hks.
  - destruct l as [| p rest]; [congruence |].
    exfalso.
    assert (Hin : In (nationality p) (fold_left add_key (map nationality (p :: rest)) [])).
    { apply In_fold_add_key. right. left. reflexivity. }
    rewrite Hks in Hin. destruct Hin.
  - simpl py_max.
    destruct (max_scan_first_greatest key ks k0) as (k1 & k2 & Heq & H1 & H2).
    set (m := max_scan key k0 ks) in *.
    rewrite Heq in Hks.
    destruct (fold_add_key_first_seen _ _ _ _ _ Hks (fun H => H))
      as (pre & post & Hl & Hpre & Hk1).
    exists m, pre, post. repeat split.
    + assumption.
    + assumption.
    + intros y Hy. rewrite <- !Hkey. apply H1. apply Hk1. assumption.
    + intros y. destruct (in_dec string_dec y (map nationality l)) as [Hin | Hout].
      * assert (Hy : In y (k1 ++ m :: k2)).
        { rewrite <- Hks. apply In_fold_add_key. right. assumption. }
        rewrite <- !Hkey.
        apply in_app_or in Hy. destruct Hy as [Hy | [Hm | Hy]].
        -- apply H1 in Hy. lia.
        -- rewrite <- Hm. lia.
        -- apply H2. assumption.
      * rewrite (occurrences_absent _ _ Hout). lia.
    + apply Hkey.
Qed.

Lemma nationality_asked_iff (self : GuessWhoGame) (most_common : string) :
  nationality_asked self = Some most_common
  <-> 2 < List.length (remaining_people self)
      /\ most_common_nationality (remaining_people self) = Some most_common
      /\ 1 < occurrences most_common (remaining_people self).
Proof.
  unfold nationality_asked.
  destruct (Nat.leb_spec (List.length (remaining_people self)) 2) as [Hle | Hgt].
  - split; [discriminate | intros (H & _); lia].
  - destruct (most_common_nationality (remaining_people self)) as [mc |].
    + rewrite count_nationalities_get. simpl dict_get. cbn [Nat.add].
      destruct (Nat.ltb_spec 1 (occurrences mc (remaining_people self))) as [H1 | H1].
      * split.
        -- intros [= <-]. auto.
        -- intros (_ & [= <-] & _). reflexivity.
      * split; [discriminate |].
        intros (_ & [= <-] & H). lia.
    + split; [discriminate | intros (_ & H & _); discriminate].
Qed.

Lemma ask_nationality_question_unfold (w : World) :
  ask_nationality_question w
  = match nationality_asked (game w) with
    | Some most_common =>
        input_loop (nationality_prompt most_common)
          (yes_no_body (fun p => String.eqb (nationality p) most_common)
                       (fun p => negb (String.eqb (nationality p) most_common))) w
    | None => Ok tt w
    end.
Proof.
  unfold ask_nationality_question, nationality_asked, bind, get_self.
  cbv zeta.
  destruct (Nat.leb_spec (List.length (remaining_people (game w))) 2) as [Hle | Hgt].
  - reflexivity.
  - destruct (most_common_is_first_plurality (remaining_people (game w)))
      as (mc & _ & _ & Hmc & _).
    { intros E. rewrite E in Hgt. simpl in Hgt. lia. }
    unfold most_common_nationality in *. cbv zeta in Hmc. rewrite Hmc.
    destruct (1 <? _)%nat; reflexivity.
Qed.

(** C4: the nationality question is about the nationality of greatest count
    among the current candidates, counted afresh from the current candidate
    list, the first one met winning a tie.  It is put only when that count
    exceeds 1 and is skipped when it is exactly 1.  Y keeps the candidates
    whose nationality is exactly that string, N those whose nationality is
    not. *)
Theorem nationality_question_first_plurality :
  (forall l : list Person, l <> [] ->
     exists most_common pre post,
       most_common_nationality l = Some most_common
       /\ map nationality l = pre ++ most_common :: post
       /\ ~ In most_common pre
       /\ (forall y, In y pre -> occurrences y l < occurrences most_common l)
       /\ (forall y, occurrences y l <= occurrences most_common l)
       /\ dict_get (count_nationalities l []) most_common 0
          = occurrences most_common l)
  /\ (forall w : World,
        ask_nationality_question w
        = match nationality_asked (game w) with
          | Some most_common =>
              input_loop (nationality_prompt most_common)
                (yes_no_body (fun p => String.eqb (nationality p) most_common)
                             (fun p => negb (String.eqb (nationality p) most_common))) w
          | None => Ok tt w
          end)
  /\ (forall (self : GuessWhoGame) (most_common : string),
        nationality_asked self = Some most_common
        <-> 2 < List.length (remaining_people self)
            /\ most_common_nationality (remaining_people self) = Some most_common
            /\ 1 < occurrences most_common (remaining_people self))
  /\ (forall (w : World) (most_common : string),
        most_common_nationality (remaining_people (game w)) = Some most_common ->
        occurrences most_common (remaining_people (game w)) = 1 ->
        ask_nationality_question w = Ok tt w)
  /\ (forall (self : GuessWhoGame) (most_common line : string)
             (inp : list string) (out : list Line),
        nationality_asked self = Some most_common ->
        Str.mem (normalized line) ["Y"; "N"] = true ->
        exists self',
          ask_nationality_question (mkWorld self (line :: inp) out)
          = Ok tt (mkWorld self' inp (out ++ [Prompt (nationality_prompt most_common)]))
          /\ questions_asked self' = questions_asked self + 1
          /\ remaining_people self'
             = if String.eqb (normalized line) "Y"
               then filter (fun p => String.eqb (nationality p) most_common)
                           (remaining_people self)
               else filter (fun p => negb (String.eqb (nationality p) most_common))
                           (remaining_people self))
  /\ (forall (p : Person) (most_common : string),
        String.eqb (nationality p) most_common = true <-> nationality p = most_common).
Proof.
  split; [exact most_common_is_first_plurality |].
  split; [exact ask_nationality_question_unfold |].
  split; [exact nationality_asked_iff |].
  split; [| split].
  - intros w mc Hmc Hone. rewrite ask_nationality_question_unfold.
    destruct (nationality_asked (game w)) as [mc' |] eqn:Hasked; [| reflexivity].
    apply nationality_asked_iff in Hasked. destruct Hasked as (_ & Hmc' & Hgt).
    rewrite Hmc in Hmc'. injection Hmc' as <-. lia.
  - intros self mc line inp out Hasked Hvalid.
    exists (answered (fun p => String.eqb (nationality p) mc)
                     (fun p => negb (String.eqb (nationality p) mc))
                     (normalized line) self).
    split; [| split].
    + rewrite ask_nationality_question_unfold. cbn [game]. rewrite Hasked.
      apply yes_no_valid. assumption.
    + unfold answered. destruct (String.eqb (normalized line) "Y"); reflexivity.
    + unfold answered. destruct (String.eqb (normalized line) "Y"); reflexivity.
  - intros p mc. apply String.eqb_eq.
Qed.

Lemma nationality_question_first_plurality_witness :
  most_common_nationality mixed_table = Some "USA"
  /\ nationality_asked (in_session mixed_table 2) = Some "USA"
  /\ exists self',
       ask_nationality_question (mkWorld (in_session mixed_table 2) ["n"] [])
       = Ok tt (mkWorld self' [] [Prompt "Is the person from USA? (Y/N): "])
       /\ questions_asked self' = 3
       /\ remaining_people self' = [footballer; tennis_player_2; tennis_player].
Proof.
  destruct nationality_question_first_plurality as (_ & _ & _ & _ & Hanswer & _).
  split; [reflexivity |].
  split; [reflexivity |].
  exact (Hanswer (in_session mixed_table 2) "USA" "n" [] [] eq_refl eq_refl).
Defined.

(** A tie goes to the nationality met first; a differently cased spelling is
    another nationality. *)
Example tie_goes_to_first_met :
  most_common_nationality [singer; footballer; footballer; actor] = Some "USA"
  /\ most_common_nationality [footballer; singer; footballer; actor] = Some "Argentina"
  /\ String.eqb "usa" "USA" = false.
Proof. repeat split; reflexivity. Qed.

(** With six candidates of six nationalities the round asks nothing. *)
Example no_repeated_nationality_no_question :
  ask_nationality_question
    (mkWorld (in_session [footballer; tennis_player; tennis_player_2;
                          mkPerson 13 "Magnus Carlsen" "M" 32 "Chess" "SPORTS" "Norway";
                          mkPerson 15 "Virat Kohli" "M" 34 "Cricket" "SPORTS" "India";
                          singer] 3) ["y"] [])
  = Ok tt (mkWorld (in_session [footballer; tennis_player; tennis_player_2;
                          mkPerson 13 "Magnus Carlsen" "M" 32 "Chess" "SPORTS" "Norway";
                          mkPerson 15 "Virat Kohli" "M" 34 "Cricket" "SPORTS" "India";
                          singer] 3) ["y"] []).
Proof. reflexivity. Qed.

(* ================================================================= *)
(** ** The question of a round *)

Lemma while_input_prompts_first {A} prompt (body : string -> GuessWhoGame -> LoopStep A)
    inp g out :
  exists rest,
    stdout (world_of (while_input prompt body inp g out)) = out ++ Prompt prompt :: rest.
Proof.
  revert g out. induction inp as [| line more IH]; intros g out; simpl.
  - exists []. reflexivity.
  - destruct (body _ g) as [a g' printed | printed]; simpl.
    + exists printed. reflexivity.
    + destruct (IH g (out ++ Prompt prompt :: printed)) as [rest Hrest].
      rewrite Hrest. exists (printed ++ Prompt prompt :: rest).
      rewrite <- app_assoc. reflexivity.
Qed.

Lemma prompts_first_input_loop {A} prompt (body : string -> GuessWhoGame -> LoopStep A) :
  prompts_first prompt (input_loop prompt body).
Proof. intros w. apply while_input_prompts_first. Qed.

Lemma prompts_first_bind {A B} text (m : M A) (k : A -> M B) :
  prompts_first text m -> (forall a, respects output_extends (k a)) ->
  prompts_first text (bind m k).
Proof.
  intros Hm Hk w. unfold bind. destruct (Hm w) as [rest Hrest].
  destruct (m w) as [a w' | e w']; simpl in *.
  - destruct (Hk a w') as [new Hnew]. rewrite Hnew, Hrest.
    exists (rest ++ new). rewrite <- app_assoc. reflexivity.
  - exists rest. assumption.
Qed.

Lemma new_lines_app {A} (out new : list Line) (r : Res A) :
  stdout (world_of r) = out ++ new -> new_lines out r = new.
Proof.
  unfold new_lines. intros ->. induction out as [| x out IH]; simpl; auto.
Qed.

Lemma first_prompt_of_prompts_first {A} text (m : M A) (w : World) :
  prompts_first text m -> first_prompt (new_lines (stdout w) (m w)) = Some text.
Proof.
  intros H. destruct (H w) as [rest Hrest].
  rewrite (new_lines_app _ _ _ Hrest). reflexivity.
Qed.

Lemma play_round_in_progress (w : World) :
  spec_transition_rule (game w) = InProgress ->
  play_round w = (ask_by_size ;; ret true) (round_opened w).
Proof.
  intros H. unfold play_round, bind at 1, get_self.
  unfold spec_transition_rule in H.
  destruct (remaining_people (game w)) as [| a [| b l]] eqn:Hrem; try discriminate.
  cbn [List.length Nat.eqb].
  destruct (max_questions (game w) <=? questions_asked (game w))%nat;
    [discriminate |].
  unfold bind at 1, print, round_opened. rewrite Hrem. reflexivity.
Qed.

(** What the round writes after its header is what [ask_by_size] writes. *)
Lemma first_prompt_of_round (w : World) :
  spec_transition_rule (game w) = InProgress ->
  first_prompt (new_lines (stdout w) (play_round w))
  = first_prompt (new_lines (stdout (round_opened w)) (ask_by_size (round_opened w))).
Proof.
  intros H. rewrite (play_round_in_progress w H).
  destruct (respects_ask_by_size output_extends output_extends_refl
              output_extends_trans output_extends_step (round_opened w))
    as [new Hnew].
  rewrite (new_lines_app _ _ _ Hnew).
  assert (Hw : stdout (world_of ((ask_by_size ;; ret true) (round_opened w)))
               = stdout w ++ [QuestionOf (questions_asked (game w) + 1)
                                         (max_questions (game w));
                              RemainingPeople (List.length (remaining_people (game w)))]
                          ++ new).
  { unfold bind. destruct (ask_by_size (round_opened w)) as [u w' | e w'];
      simpl in *; rewrite Hnew, <- app_assoc; reflexivity. }
  rewrite (new_lines_app _ _ _ Hw). reflexivity.
Qed.

Lemma ask_by_size_tiers (w : World) :
  let n := List.length (remaining_people (game w)) in
  (20 < n -> ask_by_size w = ask_gender_question w)
  /\ (10 < n <= 20 ->
      ask_by_size w
      = (industry_type <- ask_entertainment_question ;;
         if String.eqb industry_type "entertainment" then
           self <- get_self ;;
           if existsb plays_sport (remaining_people self) then ask_sports_question
           else ask_film_vs_music_question
         else ret tt) w)
  /\ (5 < n <= 10 -> ask_by_size w = ask_nationality_question w)
  /\ (n <= 5 -> ask_by_size w = ask_age_question w).
Proof.
  intros n.
  assert (Hun : ask_by_size w
                = (if (20 <? n)%nat then ask_gender_question
                   else if (10 <? n)%nat then
                     industry_type <- ask_entertainment_question ;;
                     if String.eqb industry_type "entertainment" then
                       self <- get_self ;;
                       if existsb plays_sport (remaining_people self)
                       then ask_sports_question
                       else ask_film_vs_music_question
                     else ret tt
                   else if (5 <? n)%nat then ask_nationality_question
                   else ask_age_question) w) by reflexivity.
  rewrite Hun.
  destruct (Nat.ltb_spec 20 n), (Nat.ltb_spec 10 n), (Nat.ltb_spec 5 n);
    repeat split; intros; try lia; reflexivity.
Qed.

Lemma ask_age_question_cases (w : World) :
  ask_age_question w
  = if (List.length (remaining_people (game w)) <=? 2)%nat then Ok tt w
    else input_loop age_prompt
           (yes_no_body (fun p => (40 <? age p)%Z) (fun p => (age p <=? 40)%Z)) w.
Proof.
  unfold ask_age_question, bind, get_self.
  destruct (List.length (remaining_people (game w)) <=? 2)%nat; reflexivity.
Qed.

Lemma output_extends_follow_up (industry_type : string) :
  respects output_extends
    (if String.eqb industry_type "entertainment" then
       self <- get_self ;;
       if existsb plays_sport (remaining_people self) then ask_sports_question
       else ask_film_vs_music_question
     else ret tt).
Proof.
  pose proof output_extends_refl as Hr.
  pose proof output_extends_trans as Ht.
  pose proof output_extends_step as Hs.
  destruct (String.eqb industry_type "entertainment").
  - apply respects_bind; [assumption | apply respects_get_self; assumption |].
    intros self. destruct (existsb plays_sport (remaining_people self)).
    + apply respects_ask_sports_question; assumption.
    + apply respects_ask_film_vs_music_question; assumption.
  - apply respects_ret. assumption.
Qed.

Lemma new_lines_nothing {A} (a : A) (w : World) : new_lines (stdout w) (Ok a w) = [].
Proof. apply new_lines_app. simpl. rewrite app_nil_r. reflexivity. Qed.

(** The claim as first written has the age question put to two candidates
    (size at most 5 and not below 2); the age step returns at once there. *)
Lemma age_question_not_asked_of_two :
  ~ (forall w : World,
       spec_transition_rule (game w) = InProgress ->
       2 <= List.length (remaining_people (game w)) <= 5 ->
       first_prompt (new_lines (stdout w) (play_round w)) = Some age_prompt).
Proof.
  intros H.
  specialize (H (mkWorld (in_session [singer; actor] 0) ["y"] []) eq_refl).
  simpl in H. assert (H2 : 2 <= 2 <= 5) by lia.
  specialize (H H2). discriminate H.
Qed.

(** C3, amended: in a round in progress the size of the candidate list picks
    one step.  More than 20: the gender question, keeping the candidates of
    the answered gender.  11 to 20: the entertainment question first.  6 to
    10: the nationality step, which puts its question when a nationality is
    repeated and nothing otherwise.  3 to 5: the over-40 question, Y keeping
    age > 40 and N age <= 40.  2: nothing is asked and the round returns with
    the engine unchanged.  Both the nationality and the age step return at
    once on 2 candidates or fewer. *)
Theorem question_step_selected_by_size (w : World) :
  spec_transition_rule (game w) = InProgress ->
  let n := List.length (remaining_people (game w)) in
  let asked := first_prompt (new_lines (stdout w) (play_round w)) in
  (20 < n -> asked = Some gender_prompt)
  /\ (10 < n <= 20 -> asked = Some entertainment_prompt)
  /\ (5 < n <= 10 -> asked = option_map nationality_prompt (nationality_asked (game w)))
  /\ (2 < n <= 5 -> asked = Some age_prompt)
  /\ (n <= 2 -> asked = None /\ play_round w = Ok true (round_opened w))
  /\ (forall line inp, stdin w = line :: inp -> 20 < n ->
        Str.mem (normalized line) ["M"; "F"] = true ->
        exists w', play_round w = Ok true w' /\ stdin w' = inp
          /\ questions_asked (game w') = questions_asked (game w) + 1
          /\ remaining_people (game w')
             = filter (fun p => String.eqb (gender p) (normalized line))
                      (remaining_people (game w)))
  /\ (forall line inp, stdin w = line :: inp -> 2 < n <= 5 ->
        Str.mem (normalized line) ["Y"; "N"] = true ->
        exists w', play_round w = Ok true w' /\ stdin w' = inp
          /\ questions_asked (game w') = questions_asked (game w) + 1
          /\ remaining_people (game w')
             = if String.eqb (normalized line) "Y"
               then filter (fun p => (40 <? age p)%Z) (remaining_people (game w))
               else filter (fun p => (age p <=? 40)%Z) (remaining_people (game w)))
  /\ (forall w0 : World, List.length (remaining_people (game w0)) <= 2 ->
        ask_nationality_question w0 = Ok tt w0 /\ ask_age_question w0 = Ok tt w0).
Proof.
  intros Hprog n asked.
  destruct (ask_by_size_tiers (round_opened w)) as (Tg & Te & Tn & Ta).
  cbn [round_opened game] in Tg, Te, Tn, Ta. fold n in Tg, Te, Tn, Ta.
  repeat split.
  - intros Hn. unfold asked. rewrite (first_prompt_of_round w Hprog), (Tg Hn).
    apply first_prompt_of_prompts_first. apply prompts_first_input_loop.
  - intros Hn. unfold asked. rewrite (first_prompt_of_round w Hprog), (Te Hn).
    apply first_prompt_of_prompts_first. apply prompts_first_bind.
    + apply prompts_first_input_loop.
    + apply output_extends_follow_up.
  - intros Hn. unfold asked. rewrite (first_prompt_of_round w Hprog), (Tn Hn).
    rewrite ask_nationality_question_unfold. cbn [round_opened game].
    destruct (nationality_asked (game w)) as [mc |]; cbn [option_map].
    + apply (first_prompt_of_prompts_first _ _ (round_opened w)).
      apply prompts_first_input_loop.
    + rewrite new_lines_nothing. reflexivity.
  - intros Hn. unfold asked. rewrite (first_prompt_of_round w Hprog).
    rewrite Ta by lia. rewrite ask_age_question_cases. cbn [round_opened game].
    fold n. destruct (Nat.leb_spec n 2); [lia |].
    apply (first_prompt_of_prompts_first _ _ (round_opened w)).
    apply prompts_first_input_loop.
  - unfold asked. rewrite (first_prompt_of_round w Hprog).
    rewrite Ta by lia. rewrite ask_age_question_cases. cbn [round_opened game].
    fold n. destruct (Nat.leb_spec n 2); [| lia].
    rewrite new_lines_nothing. reflexivity.
  - rewrite (play_round_in_progress w Hprog). unfold bind.
    rewrite Ta by lia. rewrite ask_age_question_cases. cbn [round_opened game].
    fold n. destruct (Nat.leb_spec n 2); [| lia]. reflexivity.
  - intros line inp Hin Hn Hvalid.
    rewrite (play_round_in_progress w Hprog). unfold bind. rewrite (Tg Hn).
    unfold ask_gender_question, input_loop, round_opened. cbn [stdin game stdout].
    rewrite Hin.
    erewrite while_input_valid; [| rewrite Hvalid; reflexivity].
    eexists. split; [reflexivity |]. repeat split; simpl; lia.
  - intros line inp Hin Hn Hvalid.
    rewrite (play_round_in_progress w Hprog). unfold bind.
    rewrite Ta by lia. rewrite ask_age_question_cases. cbn [round_opened game].
    fold n. destruct (Nat.leb_spec n 2); [lia |].
    unfold round_opened. rewrite Hin.
    rewrite (yes_no_valid age_prompt _ _ line inp (game w) _ Hvalid).
    eexists. split; [reflexivity |]. cbn [stdin game]. unfold answered.
    destruct (String.eqb (normalized line) "Y"); repeat split; simpl; lia.
  - rewrite ask_nationality_question_unfold.
    destruct (nationality_asked (game w0)) as [mc |] eqn:Hasked; [| reflexivity].
    apply nationality_asked_iff in Hasked. lia.
  - rewrite ask_age_question_cases.
    destruct (Nat.leb_spec (List.length (remaining_people (game w0))) 2);
      [reflexivity | lia].
Qed.

Lemma question_step_selected_by_size_witness :
  let w := mkWorld (in_session trio 5) ["n"; "y"] [] in
  first_prompt (new_lines (stdout w) (play_round w)) = Some age_prompt
  /\ exists w', play_round w = Ok true w' /\ stdin w' = ["y"]
       /\ questions_asked (game w') = 6
       /\ remaining_people (game w') = [footballer; singer].
Proof.
  intros w.
  destruct (question_step_selected_by_size w eq_refl)
    as (_ & _ & _ & Hasked & _ & _ & Hanswer & _).
  split.
  - apply Hasked. simpl. lia.
  - apply (Hanswer "n" ["y"] eq_refl); [simpl; lia | reflexivity].
Defined.

(* ================================================================= *)
(** ** Persons *)

Lemma upper_char_idempotent (c : ascii) :
  Str.upper_char (Str.upper_char c) = Str.upper_char c.
Proof. destruct c as [[] [] [] [] [] [] [] []]; reflexivity. Qed.

Lemma upper_idempotent (s : string) : Str.upper (Str.upper s) = Str.upper s.
Proof.
  induction s as [| c t IH]; simpl.
  - reflexivity.
  - rewrite upper_char_idempotent, IH. reflexivity.
Qed.

Lemma upper_if_truthy (s : string) :
  (if Str.truthy s then Str.upper s else "") = Str.upper s.
Proof. destruct s; reflexivity. Qed.

Lemma upper_is_M (s : string) : Str.upper s = "M" <-> s = "M" \/ s = "m".
Proof.
  split.
  - destruct s as [| c [| c' t]]; simpl; try discriminate.
    intros [= H].
    destruct c as [[] [] [] [] [] [] [] []]; try discriminate H; auto.
  - intros [-> | ->]; reflexivity.
Qed.

Lemma upper_is_F (s : string) : Str.upper s = "F" <-> s = "F" \/ s = "f".
Proof.
  split.
  - destruct s as [| c [| c' t]]; simpl; try discriminate.
    intros [= H].
    destruct c as [[] [] [] [] [] [] [] []]; try discriminate H; auto.
  - intros [-> | ->]; reflexivity.
Qed.

(** The claim as first written: every person satisfies the invariant.  The
    constructor checks nothing, so a row with another gender letter, another
    industry or a negative age loads as it is. *)
Lemma person_invariant_not_enforced :
  ~ (forall data : Row, person_invariant (from_tuple data)).
Proof.
  intros H. destruct (H odd_row) as ([E | [E | []]] & _); discriminate E.
Qed.

(** C5, amended: the constructor upper-cases gender and industry, once (a
    second normalization changes nothing), and stores the other fields as
    given; it checks nothing, so a person satisfies the invariant exactly
    when the values supplied do, letter case apart.  A round of the game
    changes no person: every candidate after it is one of the candidates
    before it, and the catalogue is the same list. *)
Theorem person_normalized_once_never_changed :
  (forall (sno0 : Z) (name0 gender0 : string) (age0 : Z)
          (occupation0 industry0 nationality0 : string),
      let p := Person_init sno0 name0 gender0 age0 occupation0 industry0 nationality0 in
      gender p = Str.upper gender0
      /\ industry p = Str.upper industry0
      /\ sno p = sno0 /\ name p = name0 /\ age p = age0
      /\ occupation p = occupation0 /\ nationality p = nationality0
      /\ post_init p = p
      /\ (In (gender p) ["M"; "F"] <-> In gender0 ["M"; "m"; "F"; "f"])
      /\ (person_invariant p
          <-> In gender0 ["M"; "m"; "F"; "f"]
              /\ In (Str.upper industry0) closed_industries
              /\ (0 <= age0)%Z))
  /\ (forall (w : World) (p : Person),
         In p (remaining_people (game (world_of (play_round w)))) ->
         In p (remaining_people (game w)))
  /\ (forall w : World, people (game (world_of (play_round w))) = people (game w)).
Proof.
  split; [| split].
  - intros sno0 name0 gender0 age0 occupation0 industry0 nationality0 p.
    assert (Hg : gender p = Str.upper gender0) by apply upper_if_truthy.
    assert (Hi : industry p = Str.upper industry0) by apply upper_if_truthy.
    assert (HMF : In (gender p) ["M"; "F"] <-> In gender0 ["M"; "m"; "F"; "f"]).
    { rewrite Hg. simpl.
      pose proof (upper_is_M gender0) as HM. pose proof (upper_is_F gender0) as HF.
      split.
      - intros [E | [E | []]]; symmetry in E;
          [apply HM in E | apply HF in E]; destruct E as [-> | ->]; auto.
      - intros [<- | [<- | [<- | [<- | []]]]]; auto. }
    split; [exact Hg |]. split; [exact Hi |].
    repeat (split; [reflexivity |]).
    split.
    + unfold p, Person_init, post_init. simpl.
      rewrite !upper_if_truthy, !upper_idempotent. reflexivity.
    + split; [exact HMF |].
      unfold person_invariant. rewrite HMF, Hi. reflexivity.
  - intros w p. apply subseq_In. apply (play_round_advances w).
  - intros w. apply (play_round_advances w).
Qed.

(* ================================================================= *)
(** ** The question counter and the budget *)

(** A session starts with the counter at 0 and the whole catalogue as
    candidates, and reads nothing. *)
Lemma start_new_game_resets (data : list Row) (w : World) :
  exists w',
    start_new_game data w = Ok true w'
    /\ questions_asked (game w') = 0
    /\ max_questions (game w') = max_questions (game w)
    /\ remaining_people (game w') = map from_tuple data
    /\ stdin w' = stdin w.
Proof. eexists. split; [reflexivity |]. repeat split. Qed.

(** Across any number of rounds the counter never goes down, the candidates
    are only thinned out, and every line read either drew one re-prompt or
    raised the counter by exactly one, whichever question read it. *)
Lemma round_loop_counts (fuel : nat) (w : World) (r : Res unit) :
  round_loop fuel w = Some r ->
  game_advances w (world_of r) /\ answers_counted w (world_of r).
Proof.
  revert w. induction fuel as [| fuel IH]; intros w; simpl; [discriminate |].
  pose proof (play_round_advances w) as Hadv.
  pose proof (play_round_answers_counted w) as Hcnt.
  destruct (play_round w) as [[|] w' | e w']; simpl in *.
  - intros H. destruct (IH _ H) as [Hadv' Hcnt'].
    split; [eapply game_advances_trans | eapply answers_counted_trans]; eassumption.
  - intros [= <-]. auto.
  - intros [= <-]. auto.
Qed.

Lemma play_round_idle_on_two (w : World) :
  List.length (remaining_people (game w)) = 2 ->
  questions_asked (game w) < max_questions (game w) ->
  play_round w = Ok true (round_opened w).
Proof.
  intros Hlen Hq.
  assert (Hprog : spec_transition_rule (game w) = InProgress).
  { unfold spec_transition_rule.
    destruct (remaining_people (game w)) as [| a [| b [| c l]]]; try discriminate.
    destruct (Nat.leb_spec (max_questions (game w)) (questions_asked (game w)));
      [lia | reflexivity]. }
  rewrite (play_round_in_progress w Hprog). unfold bind.
  destruct (ask_by_size_tiers (round_opened w)) as (_ & _ & _ & Ta).
  cbn [round_opened game] in Ta. rewrite Ta by lia.
  rewrite ask_age_question_cases. cbn [round_opened game]. rewrite Hlen.
  reflexivity.
Qed.

(** With two candidates and budget left a round asks nothing and changes
    nothing, so the round loop never leaves that state. *)
Lemma round_loop_never_ends_on_two (fuel : nat) (w : World) :
  List.length (remaining_people (game w)) = 2 ->
  questions_asked (game w) < max_questions (game w) ->
  round_loop fuel w = None.
Proof.
  revert w. induction fuel as [| fuel IH]; intros w Hlen Hq; simpl.
  - reflexivity.
  - rewrite (play_round_idle_on_two w Hlen Hq). apply IH; assumption.
Qed.

(** C1, at the failing input: eleven footballers and the answer "y" 21
    times.  Each round asks three questions (entertainment, sports, ball
    sport) and the budget is looked at only when a round starts, so the round
    entered with 18 questions asked ends with 21, over the budget of 20. *)
Theorem budget_overrun_within_a_round :
  exists w',
    play_game 8 football_rows (console (repeat "y" 21)) = Some (Ok tt w')
    /\ max_questions (game w') = 20
    /\ questions_asked (game w') = 21
    /\ stdin w' = []
    /\ reprompts (stdout w') = 0.
Proof. eexists. split; [vm_compute; reflexivity |]. repeat split. Qed.

(** The other way the budget fails to end a session: two candidates left. *)
Example session_stuck_on_two_candidates :
  forall fuel, round_loop fuel (mkWorld (in_session [singer; actor] 3) ["y"] []) = None.
Proof. intros fuel. apply round_loop_never_ends_on_two; simpl; lia. Qed.

(** The specification's example: in a catalogue of 25 men the answer F to
    the gender question leaves nobody, and the next round's check ends the
    session with the no-match message after one question. *)
Example all_male_catalogue_answer_F :
  exists w',
    play_game 2 all_male_rows (console ["f"]) = Some (Ok tt w')
    /\ remaining_people (game w') = []
    /\ questions_asked (game w') = 1
    /\ stdout w' = [LoadedPeople 25; Welcome 25 20; QuestionOf 1 20; RemainingPeople 25;
                    Prompt gender_prompt; RemainingPossibilities 0; NoMatch].
Proof. eexists. split; [vm_compute; reflexivity |]. repeat split. Qed.

(* ================================================================= *)
(** ** The round loop as a whole *)

Lemma not_in_progress_iff (self : GuessWhoGame) :
  spec_transition_rule self <> InProgress
  <-> List.length (remaining_people self) <= 1
      \/ max_questions self <= questions_asked self.
Proof.
  unfold spec_transition_rule.
  destruct (remaining_people self) as [| a [| b l]]; simpl.
  - split; [intros _; left; lia | discriminate].
  - split; [intros _; left; lia | discriminate].
  - destruct (Nat.leb_spec (max_questions self) (questions_asked self)).
    + split; [intros _; right; assumption | discriminate].
    + split; [congruence | intros [H' | H']; lia].
Qed.

(** A round that ends the game has changed nothing but the output. *)
Lemma play_round_over (w w' : World) :
  play_round w = Ok false w' ->
  spec_transition_rule (game w) <> InProgress
  /\ game w' = game w /\ stdin w' = stdin w.
Proof.
  intros H.
  destruct (spec_transition_rule (game w)) eqn:Hrule.
  - rewrite (play_round_in_progress w Hrule) in H. unfold bind, ret in H.
    destruct (ask_by_size (round_opened w)); discriminate H.
  - split; [discriminate |]. revert H Hrule.
    unfold play_round, bind, get_self, print, ret, spec_transition_rule.
    destruct (remaining_people (game w)) as [| a [| b l]];
      cbn [List.length Nat.eqb];
      try destruct (max_questions (game w) <=? questions_asked (game w))%nat;
      intros H Hrule; try discriminate Hrule;
      injection H as <-; split; reflexivity.
  - split; [discriminate |]. revert H Hrule.
    unfold play_round, bind, get_self, print, ret, spec_transition_rule.
    destruct (remaining_people (game w)) as [| a [| b l]];
      cbn [List.length Nat.eqb];
      try destruct (max_questions (game w) <=? questions_asked (game w))%nat;
      intros H Hrule; try discriminate Hrule;
      injection H as <-; split; reflexivity.
  - split; [discriminate |]. revert H Hrule.
    unfold play_round, bind, get_self, print, ret, spec_transition_rule.
    destruct (remaining_people (game w)) as [| a [| b l]];
      cbn [List.length Nat.eqb];
      try destruct (max_questions (game w) <=? questions_asked (game w))%nat;
      intros H Hrule; try discriminate Hrule;
      injection H as <-; split; reflexivity.
Qed.

(** X1: when the loop [while self.play_round()] ends without an exception, at
    most one candidate is left or the counter has reached the budget: nothing
    else makes [play_round] return [False]. *)
Theorem round_loop_ends_only_when_decided (fuel : nat) (w w' : World) :
  round_loop fuel w = Some (Ok tt w') ->
  List.length (remaining_people (game w')) <= 1
  \/ max_questions (game w') <= questions_asked (game w').
Proof.
  revert w. induction fuel as [| fuel IH]; intros w; simpl; [discriminate |].
  destruct (play_round w) as [[|] w1 | e w1] eqn:Hround.
  - apply IH.
  - intros [= <-]. destruct (play_round_over _ _ Hround) as (Hrule & Hgame & _).
    rewrite Hgame. apply not_in_progress_iff. assumption.
  - discriminate.
Qed.

Lemma round_loop_ends_only_when_decided_witness :
  exists w',
    round_loop 2 (mkWorld (in_session trio 5) ["y"] []) = Some (Ok tt w')
    /\ (List.length (remaining_people (game w')) <= 1
        \/ max_questions (game w') <= questions_asked (game w')).
Proof.
  eexists. split; [reflexivity |].
  apply (round_loop_ends_only_when_decided 2 (mkWorld (in_session trio 5) ["y"] [])).
  reflexivity.
Defined.

(** A round in progress asks nothing on two candidates, and on six to ten
    candidates no two of whom share a nationality. *)
Lemma play_round_idle (w : World) :
  spec_transition_rule (game w) = InProgress ->
  List.length (remaining_people (game w)) <= 2
  \/ (5 < List.length (remaining_people (game w)) <= 10
      /\ nationality_asked (game w) = None) ->
  play_round w = Ok true (round_opened w).
Proof.
  intros Hprog Hidle.
  rewrite (play_round_in_progress w Hprog). unfold bind.
  destruct (ask_by_size_tiers (round_opened w)) as (_ & _ & Tn & Ta).
  cbn [round_opened game] in Tn, Ta.
  destruct Hidle as [Hlen | [Hlen Hnone]].
  - rewrite Ta by lia. rewrite ask_age_question_cases. cbn [round_opened game].
    destruct (Nat.leb_spec (List.length (remaining_people (game w))) 2);
      [reflexivity | lia].
  - rewrite (Tn Hlen). rewrite ask_nationality_question_unfold.
    cbn [round_opened game]. rewrite Hnone. reflexivity.
Qed.

(** X2: the loop never ends in a state in progress whose round asks nothing:
    two candidates left, or six to ten candidates with no nationality
    repeated.  Each round only prints its header and returns [True], with the
    engine and the input as they were, so no number of rounds finishes. *)
Theorem round_loop_never_ends_when_nothing_is_asked (w : World) :
  spec_transition_rule (game w) = InProgress ->
  List.length (remaining_people (game w)) <= 2
  \/ (5 < List.length (remaining_people (game w)) <= 10
      /\ nationality_asked (game w) = None) ->
  forall fuel, round_loop fuel w = None.
Proof.
  intros Hprog Hidle fuel. revert w Hprog Hidle.
  induction fuel as [| fuel IH]; intros w Hprog Hidle; simpl.
  - reflexivity.
  - rewrite (play_round_idle w Hprog Hidle). apply IH; assumption.
Qed.

Lemma round_loop_never_ends_when_nothing_is_asked_witness :
    round_loop 1000
      (mkWorld (in_session [footballer; tennis_player; tennis_player_2;
                            mkPerson 13 "Magnus Carlsen" "M" 32 "Chess" "SPORTS" "Norway";
                            mkPerson 15 "Virat Kohli" "M" 34 "Cricket" "SPORTS" "India";
                            singer] 3) ["y"] []) = None.
Proof.
  apply round_loop_never_ends_when_nothing_is_asked.
  - reflexivity.
  - right. split; [simpl; lia | reflexivity].
Defined.

(* ================================================================= *)
(** ** From the checks to the question *)

(** After its header a round in progress writes what [ask_by_size] writes. *)
Lemma play_round_output_after_header (w : World) :
  spec_transition_rule (game w) = InProgress ->
  exists rest,
    stdout (world_of (play_round w))
    = stdout w
      ++ [QuestionOf (questions_asked (game w) + 1) (max_questions (game w));
          RemainingPeople (List.length (remaining_people (game w)))]
      ++ rest.
Proof.
  intros H. rewrite (play_round_in_progress w H).
  destruct (respects_ask_by_size output_extends output_extends_refl
              output_extends_trans output_extends_step (round_opened w))
    as [new Hnew].
  exists new. unfold bind.
  destruct (ask_by_size (round_opened w)) as [u w' | e w'];
    simpl in *; rewrite Hnew, <- app_assoc; reflexivity.
Qed.

Lemma first_prompt_is_first_question (w : World) :
  spec_transition_rule (game w) = InProgress ->
  first_prompt (new_lines (stdout w) (play_round w)) = first_question (game w).
Proof.
  intros Hprog. rewrite (first_prompt_of_round w Hprog).
  destruct (ask_by_size_tiers (round_opened w)) as (Tg & Te & Tn & Ta).
  cbn [round_opened game] in Tg, Te, Tn, Ta.
  unfold first_question.
  set (n := List.length (remaining_people (game w))) in *.
  destruct (Nat.ltb_spec 20 n) as [H20 | H20].
  { rewrite (Tg H20).
    apply first_prompt_of_prompts_first. apply prompts_first_input_loop. }
  destruct (Nat.ltb_spec 10 n) as [H10 | H10].
  { rewrite Te by lia.
    apply first_prompt_of_prompts_first. apply prompts_first_bind.
    - apply prompts_first_input_loop.
    - apply output_extends_follow_up. }
  destruct (Nat.ltb_spec 5 n) as [H5 | H5].
  { rewrite Tn by lia. rewrite ask_nationality_question_unfold.
    cbn [round_opened game].
    destruct (nationality_asked (game w)) as [mc |]; cbn [option_map].
    - apply (first_prompt_of_prompts_first _ _ (round_opened w)).
      apply prompts_first_input_loop.
    - rewrite new_lines_nothing. reflexivity. }
  rewrite Ta by lia. rewrite ask_age_question_cases. cbn [round_opened game].
  fold n.
  destruct (Nat.ltb_spec 2 n) as [H2 | H2].
  - destruct (Nat.leb_spec n 2); [lia |].
    apply (first_prompt_of_prompts_first _ _ (round_opened w)).
    apply prompts_first_input_loop.
  - destruct (Nat.leb_spec n 2); [| lia].
    rewrite new_lines_nothing. reflexivity.
Qed.

Lemma first_question_none (self : GuessWhoGame) :
  first_question self = None ->
  List.length (remaining_people self) <= 2
  \/ (5 < List.length (remaining_people self) <= 10
      /\ nationality_asked self = None).
Proof.
  unfold first_question.
  destruct (Nat.ltb_spec 20 (List.length (remaining_people self))); [discriminate |].
  destruct (Nat.ltb_spec 10 (List.length (remaining_people self))); [discriminate |].
  destruct (Nat.ltb_spec 5 (List.length (remaining_people self))).
  - destruct (nationality_asked self); [discriminate |].
    intros _. right. split; [lia | reflexivity].
  - destruct (Nat.ltb_spec 2 (List.length (remaining_people self))); [discriminate |].
    intros _. left. assumption.
Qed.

(** The claim as first written has every round that passes the three checks
    go on with a question.  Six candidates of six nationalities pass them and
    are asked nothing. *)
Lemma round_in_progress_may_ask_nothing :
  ~ (forall w : World,
       spec_transition_rule (game w) = InProgress ->
       first_prompt (new_lines (stdout w) (play_round w)) <> None).
Proof.
  intros H.
  apply (H (mkWorld (in_session [footballer; tennis_player; tennis_player_2;
                       mkPerson 13 "Magnus Carlsen" "M" 32 "Chess" "SPORTS" "Norway";
                       mkPerson 15 "Virat Kohli" "M" 34 "Cricket" "SPORTS" "India";
                       singer] 3) ["y"] [])).
  - reflexivity.
  - reflexivity.
Qed.

(** C2, amended: [play_round] opens with the three checks in this order.
    Exactly one candidate: the game is over, the candidate's name and the
    question count are revealed.  None: the game is over with the no-match
    message.  Otherwise, counter at the budget or past it: the game is over
    and the remaining candidates are listed in their order.  Each of these
    leaves the engine and standard input as they were.  Otherwise the round
    does not end the game; it writes its header and then puts, as the first
    thing it writes, the question chosen by the number of candidates, except
    that with two candidates, or with six to ten and no nationality repeated,
    it puts no question and returns with the engine and the input unchanged. *)
Theorem round_start_checks_then_first_question (w : World) :
  match spec_transition_rule (game w) with
  | Solved sole count =>
      play_round w
      = Ok false (mkWorld (game w) (stdin w)
                    (stdout w ++ [FiguredOut; DrumRoll; ThePersonIs (name sole);
                                  GuessedIn count]))
  | Exhausted_NoMatch =>
      play_round w = Ok false (mkWorld (game w) (stdin w) (stdout w ++ [NoMatch]))
  | Exhausted_BudgetSpent remaining =>
      play_round w
      = Ok false (mkWorld (game w) (stdin w)
                    (stdout w ++ OutOfQuestions
                               :: map (fun person => Bullet (name person)) remaining))
  | InProgress =>
      (forall w', play_round w <> Ok false w')
      /\ (exists rest,
             stdout (world_of (play_round w))
             = stdout w
               ++ [QuestionOf (questions_asked (game w) + 1) (max_questions (game w));
                   RemainingPeople (List.length (remaining_people (game w)))]
               ++ rest
             /\ first_prompt rest = first_question (game w))
      /\ (first_question (game w) = None -> play_round w = Ok true (round_opened w))
      /\ (first_question (game w) = None
          <-> List.length (remaining_people (game w)) = 2
              \/ (5 < List.length (remaining_people (game w)) <= 10
                  /\ nationality_asked (game w) = None))
  end.
Proof.
  pose proof (play_round_cases w) as Hcases.
  destruct (spec_transition_rule (game w)) eqn:Hrule; try exact Hcases.
  clear Hcases.
  assert (Hsize : 2 <= List.length (remaining_people (game w))).
  { unfold spec_transition_rule in Hrule.
    destruct (remaining_people (game w)) as [| a [| b l]]; try discriminate.
    simpl. lia. }
  split; [| split; [| split]].
  - intros w' Hw'. destruct (play_round_over _ _ Hw') as (Hnot & _).
    apply Hnot. assumption.
  - pose proof (first_prompt_is_first_question w Hrule) as Hfirst.
    destruct (play_round_output_after_header w Hrule) as [rest Hrest].
    exists rest. split; [assumption |].
    rewrite <- Hfirst. rewrite (new_lines_app _ _ _ Hrest). reflexivity.
  - intros Hnone. apply (play_round_idle w Hrule).
    apply first_question_none. assumption.
  - split.
    + intros Hnone. destruct (first_question_none _ Hnone) as [H | H];
        [left; lia | right; assumption].
    + unfold first_question. intros [H | [H Hnone]].
      * rewrite H. reflexivity.
      * destruct (Nat.ltb_spec 20 (List.length (remaining_people (game w)))); [lia |].
        destruct (Nat.ltb_spec 10 (List.length (remaining_people (game w)))); [lia |].
        destruct (Nat.ltb_spec 5 (List.length (remaining_people (game w)))); [| lia].
        rewrite Hnone. reflexivity.
Qed.

(* ================================================================= *)
(** ** How far the counter can pass the budget *)

Lemma asks_weaken {A} (k k' : nat) (m : M A) :
  k <= k' -> asks_at_most k m -> asks_at_most k' m.
Proof. intros Hk Hm w. specialize (Hm w). lia. Qed.

Lemma asks_ret {A} (a : A) : asks_at_most 0 (ret a).
Proof. intros w. simpl. lia. Qed.

Lemma asks_get_self : asks_at_most 0 get_self.
Proof. intros w. simpl. lia. Qed.

Lemma asks_print ls : asks_at_most 0 (print ls).
Proof. intros w. simpl. lia. Qed.

Lemma asks_bind {A B} (a b : nat) (m : M A) (k : A -> M B) :
  asks_at_most a m -> (forall x, asks_at_most b (k x)) ->
  asks_at_most (a + b) (bind m k).
Proof.
  intros Hm Hk w. unfold bind. specialize (Hm w).
  destruct (m w) as [x w' | e w']; simpl in *.
  - specialize (Hk x w'). lia.
  - lia.
Qed.

Lemma asks_if {A} (k : nat) (c : bool) (m1 m2 : M A) :
  asks_at_most k m1 -> asks_at_most k m2 -> asks_at_most k (if c then m1 else m2).
Proof. destruct c; auto. Qed.

Lemma asks_input_loop {A} prompt (body : string -> GuessWhoGame -> LoopStep A) :
  counts_its_answers body -> asks_at_most 1 (input_loop prompt body).
Proof.
  intros Hbody [g s o]. unfold input_loop. cbn [game stdin stdout].
  revert o. induction s as [| line rest IH]; intros o; simpl.
  - lia.
  - specialize (Hbody (Str.upper (Str.strip line)) g).
    destruct (body _ g) as [a g' printed | printed]; simpl.
    + lia.
    + apply IH.
Qed.

Lemma asks_yes_no prompt yes no :
  asks_at_most 1 (input_loop prompt (yes_no_body yes no)).
Proof. apply asks_input_loop, yes_no_body_counts. Qed.

Lemma asks_ask_gender_question : asks_at_most 1 ask_gender_question.
Proof.
  apply asks_input_loop. intros answer g.
  destruct (Str.mem answer _); [| reflexivity].
  split; [apply advances_incr_keep | split; reflexivity].
Qed.

Lemma asks_ask_entertainment_question : asks_at_most 1 ask_entertainment_question.
Proof.
  apply asks_input_loop. intros answer g.
  destruct (Str.mem answer _); [| reflexivity].
  destruct (String.eqb answer "Y");
    (split; [apply advances_keep_incr | split; reflexivity]).
Qed.

Lemma asks_ask_sports_question : asks_at_most 3 ask_sports_question.
Proof.
  unfold ask_sports_question.
  apply (asks_bind 0 3); [apply asks_get_self |]. intros self.
  apply asks_if; [apply (asks_weaken 0); [lia | apply asks_ret] |].
  apply (asks_bind 1 2); [apply asks_yes_no |]. intros _.
  apply (asks_bind 0 2); [apply asks_get_self |]. intros self1.
  apply (asks_bind 1 1).
  { apply asks_if; [apply asks_yes_no | apply (asks_weaken 0); [lia | apply asks_ret]]. }
  intros _.
  apply (asks_bind 0 1); [apply asks_get_self |]. intros self2.
  apply asks_if; [apply asks_yes_no | apply (asks_weaken 0); [lia | apply asks_ret]].
Qed.

Lemma asks_ask_nationality_question : asks_at_most 1 ask_nationality_question.
Proof.
  intros w. rewrite ask_nationality_question_unfold.
  destruct (nationality_asked (game w)); [apply asks_yes_no | simpl; lia].
Qed.

Lemma asks_ask_age_question : asks_at_most 1 ask_age_question.
Proof.
  intros w. rewrite ask_age_question_cases.
  destruct (_ <=? 2)%nat; [simpl; lia | apply asks_yes_no].
Qed.

Lemma asks_ask_by_size : asks_at_most 4 ask_by_size.
Proof.
  unfold ask_by_size.
  apply (asks_bind 0 4); [apply asks_get_self |]. intros self.
  apply asks_if; [apply (asks_weaken 1); [lia | apply asks_ask_gender_question] |].
  apply asks_if.
  { apply (asks_bind 1 3); [apply asks_ask_entertainment_question |].
    intros industry_type.
    apply asks_if; [| apply (asks_weaken 0); [lia | apply asks_ret]].
    apply (asks_bind 0 3); [apply asks_get_self |]. intros self1.
    apply asks_if; [apply asks_ask_sports_question |].
    apply (asks_weaken 1); [lia | apply asks_yes_no]. }
  apply asks_if;
    [apply (asks_weaken 1); [lia | apply asks_ask_nationality_question]
    | apply (asks_weaken 1); [lia | apply asks_ask_age_question]].
Qed.

Lemma asks_play_round : asks_at_most 4 play_round.
Proof.
  unfold play_round.
  apply (asks_bind 0 4); [apply asks_get_self |]. intros self.
  repeat apply asks_if.
  - apply (asks_weaken 0); [lia |].
    apply (asks_bind 0 0); [apply asks_print | intros _; apply asks_ret].
  - apply (asks_weaken 0); [lia |].
    apply (asks_bind 0 0); [apply asks_print | intros _; apply asks_ret].
  - apply (asks_weaken 0); [lia |].
    apply (asks_bind 0 0); [apply asks_print | intros _; apply asks_ret].
  - apply (asks_bind 0 4); [apply asks_print |]. intros _.
    apply (asks_bind 4 0); [apply asks_ask_by_size | intros _; apply asks_ret].
Qed.

Lemma in_progress_budget_left (self : GuessWhoGame) :
  spec_transition_rule self = InProgress ->
  questions_asked self < max_questions self.
Proof.
  unfold spec_transition_rule.
  destruct (remaining_people self) as [| a [| b l]]; try discriminate.
  destruct (Nat.leb_spec (max_questions self) (questions_asked self));
    [discriminate | intros _; assumption].
Qed.

(** A round started on a decided state returns [False] at once. *)
Lemma play_round_decided (w : World) :
  spec_transition_rule (game w) <> InProgress ->
  exists w', play_round w = Ok false w'.
Proof.
  unfold play_round, bind, get_self, print, ret, spec_transition_rule.
  destruct (remaining_people (game w)) as [| a [| b l]];
    cbn [List.length Nat.eqb];
    try destruct (max_questions (game w) <=? questions_asked (game w))%nat;
    intros H; try (eexists; reflexivity).
  exfalso. apply H. reflexivity.
Qed.

Lemma round_loop_overrun (fuel : nat) (w : World) (r : Res unit) :
  questions_asked (game w) <= max_questions (game w) + 3 ->
  round_loop fuel w = Some r ->
  questions_asked (game (world_of r)) <= max_questions (game w) + 3.
Proof.
  revert w. induction fuel as [| fuel IH]; intros w Hq; simpl; [discriminate |].
  assert (Hstep : questions_asked (game (world_of (play_round w)))
                  <= max_questions (game w) + 3
                  /\ max_questions (game (world_of (play_round w)))
                     = max_questions (game w)).
  { split; [| apply (play_round_advances w)].
    destruct (spec_transition_rule (game w)) eqn:Hrule.
    - pose proof (in_progress_budget_left _ Hrule).
      pose proof (asks_play_round w). lia.
    - destruct (play_round_decided w) as [w' Hw']; [congruence |].
      rewrite Hw'. cbn [world_of].
      destruct (play_round_over _ _ Hw') as (_ & -> & _). assumption.
    - destruct (play_round_decided w) as [w' Hw']; [congruence |].
      rewrite Hw'. cbn [world_of].
      destruct (play_round_over _ _ Hw') as (_ & -> & _). assumption.
    - destruct (play_round_decided w) as [w' Hw']; [congruence |].
      rewrite Hw'. cbn [world_of].
      destruct (play_round_over _ _ Hw') as (_ & -> & _). assumption. }
  destruct Hstep as [Hq' Hmax].
  destruct (play_round w) as [[|] w1 | e w1]; simpl in *.
  - intros H. rewrite <- Hmax. apply (IH w1); [lia | assumption].
  - intros [= <-]. assumption.
  - intros [= <-]. assumption.
Qed.

(** X3: a round raises the counter by at most 4 (entertainment, sports,
    tennis, ball sport), and the budget is tested between rounds only, so a
    session, however it ends, has counted at most [max_questions + 3]
    questions. *)
Theorem budget_overrun_is_at_most_three :
  (forall w : World,
      questions_asked (game (world_of (play_round w))) <= questions_asked (game w) + 4)
  /\ (forall (fuel : nat) (data : list Row) (w : World) (r : Res unit),
         play_game fuel data w = Some r ->
         questions_asked (game (world_of r)) <= max_questions (game w) + 3).
Proof.
  split; [exact asks_play_round |].
  intros fuel data w r.
  destruct (start_new_game_resets data w) as (w0 & Hstart & Hq0 & Hmax & _).
  unfold play_game. rewrite Hstart. intros H.
  rewrite <- Hmax. apply (round_loop_overrun fuel w0 r); [lia | assumption].
Qed.

(* ================================================================= *)
(** ** A whole session *)

Lemma start_new_game_world (data : list Row) (w : World) :
  start_new_game data w
  = Ok true (mkWorld (mkGame (map from_tuple data) (map from_tuple data) 0
                             (max_questions (game w)))
                     (stdin w)
                     ((stdout w ++ [LoadedPeople (List.length (map from_tuple data))])
                      ++ [Welcome (List.length (map from_tuple data))
                                  (max_questions (game w))])).
Proof. reflexivity. Qed.

(** X5: at the end of a session, however it ends, the counter is the number
    of lines read from standard input less the number of re-prompt messages
    written: every line the player typed either drew one re-prompt or counted
    as exactly one question. *)
Theorem session_counter_is_accepted_answers
    (fuel : nat) (data : list Row) (w : World) (r : Res unit) :
  play_game fuel data w = Some r ->
  exists new,
    stdout (world_of r) = stdout w ++ new
    /\ questions_asked (game (world_of r)) + List.length (stdin (world_of r))
       + reprompts new
       = List.length (stdin w).
Proof.
  unfold play_game. rewrite start_new_game_world. intros H.
  destruct (round_loop_counts _ _ _ H) as (_ & new & Hout & Hcount).
  cbn [stdout game stdin questions_asked] in Hout, Hcount.
  exists ([LoadedPeople (List.length (map from_tuple data));
           Welcome (List.length (map from_tuple data)) (max_questions (game w))]
          ++ new).
  split.
  - rewrite Hout, <- !app_assoc. reflexivity.
  - rewrite reprompts_app. change (reprompts [LoadedPeople _; Welcome _ _]) with 0.
    lia.
Qed.

Lemma session_counter_is_accepted_answers_witness :
  match play_game 3 all_male_rows (console ["?"; "male"; " m"; "f"; "unread"]) with
  | Some r =>
      exists new,
        stdout (world_of r) = [] ++ new
        /\ questions_asked (game (world_of r)) + List.length (stdin (world_of r))
           + reprompts new
           = 5
  | None => False
  end.
Proof.
  destruct (play_game 3 all_male_rows (console ["?"; "male"; " m"; "f"; "unread"]))
    as [r |] eqn:H.
  - exact (session_counter_is_accepted_answers _ _ _ _ H).
  - vm_compute in H. discriminate H.
Defined.

(** X6: whatever is answered, the candidates at the end of a session are
    rows of the table as loaded, in table order, and the catalogue is the
    loaded table: the engine never adds, reorders or alters a person. *)
Theorem session_candidates_come_from_the_table
    (fuel : nat) (data : list Row) (w : World) (r : Res unit) :
  play_game fuel data w = Some r ->
  subseq (remaining_people (game (world_of r))) (map from_tuple data)
  /\ people (game (world_of r)) = map from_tuple data
  /\ max_questions (game (world_of r)) = max_questions (game w).
Proof.
  unfold play_game. rewrite start_new_game_world. intros H.
  destruct (round_loop_counts _ _ _ H) as ((Hsub & _ & Hmax & Hpeople) & _).
  cbn [game remaining_people people max_questions] in Hsub, Hmax, Hpeople.
  auto.
Qed.

Lemma session_candidates_come_from_the_table_witness :
  match play_game 3 all_male_rows (console ["m"; "m"]) with
  | Some r =>
      subseq (remaining_people (game (world_of r))) (map from_tuple all_male_rows)
      /\ people (game (world_of r)) = map from_tuple all_male_rows
      /\ max_questions (game (world_of r)) = 20
  | None => False
  end.
Proof.
  destruct (play_game 3 all_male_rows (console ["m"; "m"])) as [r |] eqn:H.
  - exact (session_candidates_come_from_the_table _ _ _ _ H).
  - vm_compute in H. discriminate H.
Defined.

(* ================================================================= *)
(** ** What the two answers to a question keep *)

Lemma filter_splits (yes no : Person -> bool) (l : list Person) :
  (forall p, no p = negb (yes p)) -> splits l (filter yes l) (filter no l).
Proof.
  intros Hno. repeat split.
  - apply filter_subseq.
  - apply filter_subseq.
  - induction l as [| p l IH]; simpl; [reflexivity |].
    rewrite (Hno p). destruct (yes p); simpl; lia.
  - rewrite !filter_In, (Hno p). destruct (yes p); simpl; auto.
  - rewrite !filter_In, (Hno p). intros [[_ Hy] [_ Hn]].
    rewrite Hy in Hn. discriminate.
Qed.

Lemma left_by_yes_no prompt (yes no : Person -> bool) (self : GuessWhoGame)
    (line : string) :
  Str.mem (normalized line) ["Y"; "N"] = true ->
  left_by (input_loop prompt (yes_no_body yes no)) self line
  = if String.eqb (normalized line) "Y" then filter yes (remaining_people self)
    else filter no (remaining_people self).
Proof.
  intros Hvalid. unfold left_by.
  rewrite (yes_no_valid prompt yes no line [] self [] Hvalid).
  cbn [world_of game]. unfold answered.
  destruct (String.eqb (normalized line) "Y"); reflexivity.
Qed.

(** X7: for the entertainment, tennis, ball-sport, nationality and age
    questions, the candidates kept on Y and those kept on N divide the
    candidates between them: none is lost to both answers and none kept by
    both. *)
Theorem yes_and_no_split_the_candidates (self : GuessWhoGame) (y n : string) :
  normalized y = "Y" -> normalized n = "N" ->
  let l := remaining_people self in
  splits l (left_by ask_entertainment_question self y)
           (left_by ask_entertainment_question self n)
  /\ splits l (left_by _ask_tennis_question self y) (left_by _ask_tennis_question self n)
  /\ splits l (left_by _ask_ball_sport_question self y)
              (left_by _ask_ball_sport_question self n)
  /\ (nationality_asked self <> None ->
      splits l (left_by ask_nationality_question self y)
               (left_by ask_nationality_question self n))
  /\ (2 < List.length l ->
      splits l (left_by ask_age_question self y) (left_by ask_age_question self n)).
Proof.
  intros Hy Hn l.
  assert (Vy : Str.mem (normalized y) ["Y"; "N"] = true) by (rewrite Hy; reflexivity).
  assert (Vn : Str.mem (normalized n) ["Y"; "N"] = true) by (rewrite Hn; reflexivity).
  split; [| split; [| split; [| split]]].
  - unfold left_by, ask_entertainment_question, input_loop. cbn [game stdin stdout].
    erewrite !while_input_valid;
      [| rewrite Vn, Hn; reflexivity | rewrite Vy, Hy; reflexivity].
    apply filter_splits. reflexivity.
  - unfold _ask_tennis_question. rewrite !left_by_yes_no by assumption.
    rewrite Hy, Hn. apply filter_splits. reflexivity.
  - unfold _ask_ball_sport_question. rewrite !left_by_yes_no by assumption.
    rewrite Hy, Hn. apply filter_splits. reflexivity.
  - intros Hasked. unfold left_by. rewrite !ask_nationality_question_unfold.
    cbn [game]. destruct (nationality_asked self) as [mc |]; [| congruence].
    rewrite !yes_no_valid by assumption. cbn [world_of game]. unfold answered.
    rewrite Hy, Hn. apply filter_splits. reflexivity.
  - intros Hlen. unfold left_by. rewrite !ask_age_question_cases. cbn [game].
    fold l. destruct (Nat.leb_spec (List.length l) 2); [lia |].
    rewrite !yes_no_valid by assumption. cbn [world_of game]. unfold answered.
    rewrite Hy, Hn. apply filter_splits. intros p.
    rewrite Z.leb_antisym. reflexivity.
Qed.

Lemma yes_and_no_split_the_candidates_witness :
  splits mixed_table (left_by ask_age_question (in_session mixed_table 4) " y")
                     (left_by ask_age_question (in_session mixed_table 4) "n ").
Proof.
  destruct (yes_and_no_split_the_candidates (in_session mixed_table 4) " y" "n "
              eq_refl eq_refl) as (_ & _ & _ & _ & Hage).
  apply Hage. simpl. lia.
Defined.

(** X8: the gender question keeps a candidate on M or on F only if the
    candidate's gender is that letter, so a person loaded with any other
    gender is dropped by both answers; the two answers divide the candidates
    exactly when every candidate's gender is M or F. *)
Theorem gender_answers_drop_other_genders (self : GuessWhoGame) (m f : string) :
  normalized m = "M" -> normalized f = "F" ->
  let l := remaining_people self in
  left_by ask_gender_question self m = filter (fun p => String.eqb (gender p) "M") l
  /\ left_by ask_gender_question self f = filter (fun p => String.eqb (gender p) "F") l
  /\ (forall p, In p l -> gender p <> "M" -> gender p <> "F" ->
        ~ In p (left_by ask_gender_question self m)
        /\ ~ In p (left_by ask_gender_question self f))
  /\ (splits l (left_by ask_gender_question self m) (left_by ask_gender_question self f)
      <-> Forall (fun p => gender p = "M" \/ gender p = "F") l).
Proof.
  intros Hm Hf l.
  assert (EM : left_by ask_gender_question self m
               = filter (fun p => String.eqb (gender p) "M") l).
  { unfold left_by, ask_gender_question, input_loop. cbn [game stdin stdout].
    erewrite while_input_valid; [| rewrite Hm; reflexivity]. reflexivity. }
  assert (EF : left_by ask_gender_question self f
               = filter (fun p => String.eqb (gender p) "F") l).
  { unfold left_by, ask_gender_question, input_loop. cbn [game stdin stdout].
    erewrite while_input_valid; [| rewrite Hf; reflexivity]. reflexivity. }
  rewrite EM, EF. split; [reflexivity |]. split; [reflexivity |]. split.
  - intros p Hin HnM HnF. rewrite !filter_In. split; intros [_ H];
      apply String.eqb_eq in H; congruence.
  - split.
    + intros (_ & _ & _ & Hcover). apply Forall_forall. intros p Hin.
      destruct (Hcover p Hin) as [[H | H] _]; apply filter_In in H;
        destruct H as [_ H]; apply String.eqb_eq in H; auto.
    + intros Hall. rewrite Forall_forall in Hall. repeat split.
      * apply filter_subseq.
      * apply filter_subseq.
      * clear EM EF. induction l as [| p l IH]; simpl; [reflexivity |].
        assert (IH' : List.length (filter (fun p => String.eqb (gender p) "M") l)
                      + List.length (filter (fun p => String.eqb (gender p) "F") l)
                      = List.length l).
        { apply IH. intros q Hq. apply Hall. right. assumption. }
        destruct (Hall p (or_introl eq_refl)) as [E | E]; rewrite E; simpl; lia.
      * rewrite !filter_In.
        destruct (Hall p H) as [E | E]; rewrite E; simpl; auto.
      * rewrite !filter_In. intros [[_ H1] [_ H2]].
        apply String.eqb_eq in H1, H2. congruence.
Qed.

Lemma gender_answers_drop_other_genders_witness :
  ~ In (from_tuple odd_row)
       (left_by ask_gender_question (in_session [singer; from_tuple odd_row; actor] 0) "m")
  /\ ~ In (from_tuple odd_row)
          (left_by ask_gender_question (in_session [singer; from_tuple odd_row; actor] 0) "f").
Proof.
  destruct (gender_answers_drop_other_genders
              (in_session [singer; from_tuple odd_row; actor] 0) "m" "f"
              eq_refl eq_refl) as (_ & _ & Hdrop & _).
  apply Hdrop.
  - right. left. reflexivity.
  - discriminate.
  - discriminate.
Defined.

Lemma filter_splits_on (yes no : Person -> bool) (l : list Person) :
  (forall p, In p l -> no p = negb (yes p)) -> splits l (filter yes l) (filter no l).
Proof.
  intros Hno. repeat split.
  - apply filter_subseq.
  - apply filter_subseq.
  - induction l as [| p l IH]; simpl; [reflexivity |].
    rewrite (Hno p (or_introl eq_refl)).
    assert (IH' : List.length (filter yes l) + List.length (filter no l)
                  = List.length l).
    { apply IH. intros q Hq. apply Hno. right. assumption. }
    destruct (yes p); simpl; lia.
  - rewrite !filter_In, (Hno p H). destruct (yes p); simpl; auto.
  - rewrite !filter_In. intros [[Hin Hy] [_ Hn]].
    rewrite (Hno p Hin), Hy in Hn. discriminate.
Qed.

Lemma entertainer_without_sport (p : Person) :
  is_in_entertainment p = true -> plays_sport p = false ->
  is_in_music p = negb (is_in_film p).
Proof.
  unfold is_in_entertainment, plays_sport, is_in_music, is_in_film,
    entertainment_industries, Str.mem. simpl existsb.
  destruct (String.eqb_spec (industry p) "SPORTS") as [E | _]; [discriminate |].
  destruct (String.eqb_spec (industry p) "MUSIC") as [E | _].
  - rewrite E. reflexivity.
  - destruct (String.eqb (industry p) "FILM"); [reflexivity | discriminate].
Qed.

(** X9: the film-or-music question is reached in a round only after the
    entertainment question was answered Y and when no candidate left plays a
    sport; there every candidate is in film or in music, so its two answers
    divide the candidates.  On its own the question offers a sports person no
    answer: both drop them. *)
Theorem film_or_music_divides_when_reached (w : World) (e a : string) (inp : list string) :
  spec_transition_rule (game w) = InProgress ->
  10 < List.length (remaining_people (game w)) <= 20 ->
  stdin w = e :: a :: inp ->
  normalized e = "Y" ->
  Str.mem (normalized a) ["Y"; "N"] = true ->
  let entertainers := filter is_in_entertainment (remaining_people (game w)) in
  existsb plays_sport entertainers = false ->
  (exists w',
      play_round w = Ok true w' /\ stdin w' = inp
      /\ questions_asked (game w') = questions_asked (game w) + 2
      /\ remaining_people (game w')
         = if String.eqb (normalized a) "Y" then filter is_in_film entertainers
           else filter is_in_music entertainers)
  /\ splits entertainers (filter is_in_film entertainers)
            (filter is_in_music entertainers)
  /\ (forall (self : GuessWhoGame) (p : Person),
         plays_sport p = true ->
         ~ In p (left_by ask_film_vs_music_question self a)).
Proof.
  intros Hprog Hlen Hin He Ha entertainers Hnosport.
  split; [| split].
  - rewrite (play_round_in_progress w Hprog). unfold bind at 1.
    destruct (ask_by_size_tiers (round_opened w)) as (_ & Te & _).
    cbn [round_opened game] in Te. rewrite (Te Hlen). clear Te.
    unfold bind at 1. unfold ask_entertainment_question, input_loop, round_opened.
    cbn [stdin game stdout]. rewrite Hin.
    erewrite while_input_valid; [| rewrite He; reflexivity].
    cbn [String.eqb Ascii.eqb Bool.eqb]. unfold bind at 1, get_self.
    cbn [game keep set_remaining_people remaining_people incr_questions_asked].
    fold entertainers. rewrite Hnosport.
    unfold ask_film_vs_music_question.
    rewrite (yes_no_valid film_vs_music_prompt _ _ a inp _ _ Ha).
    eexists. split; [reflexivity |]. cbn [stdin game]. unfold answered.
    destruct (String.eqb (normalized a) "Y"); repeat split; simpl; lia.
  - apply filter_splits_on. intros p Hp.
    assert (Hp' := Hp). unfold entertainers in Hp'.
    apply filter_In in Hp'. destruct Hp' as [_ Hent].
    apply entertainer_without_sport; [assumption |].
    destruct (plays_sport p) eqn:Hs; [| reflexivity].
    assert (Hex : existsb plays_sport entertainers = true).
    { apply existsb_exists. exists p. split; assumption. }
    rewrite Hex in Hnosport. discriminate.
  - intros self p Hs. unfold left_by, ask_film_vs_music_question.
    rewrite (yes_no_valid film_vs_music_prompt _ _ a [] self [] Ha).
    cbn [world_of game]. unfold answered.
    unfold plays_sport in Hs. apply String.eqb_eq in Hs.
    destruct (String.eqb (normalized a) "Y"); simpl; rewrite filter_In;
      unfold is_in_film, is_in_music; rewrite Hs; intros [_ H]; discriminate H.
Qed.

Lemma film_or_music_divides_when_reached_witness :
  (exists w',
      play_round (mkWorld (in_session studio 0) ["y"; "n"; "z"] []) = Ok true w'
      /\ stdin w' = ["z"]
      /\ questions_asked (game w') = 0 + 2
      /\ remaining_people (game w') = filter is_in_music (filter is_in_entertainment studio))
  /\ splits (filter is_in_entertainment studio)
            (filter is_in_film (filter is_in_entertainment studio))
            (filter is_in_music (filter is_in_entertainment studio)).
Proof.
  destruct (film_or_music_divides_when_reached
              (mkWorld (in_session studio 0) ["y"; "n"; "z"] []) "y" "n" ["z"]
              eq_refl ltac:(simpl; lia) eq_refl eq_refl eq_refl eq_refl)
    as (Hrun & Hsplit & _).
  split; [exact Hrun | exact Hsplit].
Defined.

(* ================================================================= *)
(** ** The smallest catalogues *)

Lemma round_loop_idle_forever (fuel : nat) (w : World) :
  spec_transition_rule (game w) = InProgress ->
  List.length (remaining_people (game w)) <= 2 ->
  round_loop fuel w = None.
Proof.
  revert w. induction fuel as [| fuel IH]; intros w Hprog Hlen; simpl.
  - reflexivity.
  - rewrite (play_round_idle w Hprog (or_introl Hlen)). apply IH; assumption.
Qed.

(** X10: a session on an empty table ends at once with the no-match
    message, and one on a table of a single row at once by naming that row's
    person with 0 questions; neither reads any input.  A session on a table
    of two rows, with any budget above 0, never ends, whatever is typed: no
    question is ever asked of two candidates. *)
Theorem sessions_on_the_smallest_tables (fuel : nat) (w : World) :
  play_game (S fuel) [] w
  = Some (Ok tt (mkWorld (mkGame [] [] 0 (max_questions (game w))) (stdin w)
                   (stdout w ++ [LoadedPeople 0; Welcome 0 (max_questions (game w));
                                 NoMatch])))
  /\ (forall row : Row,
         play_game (S fuel) [row] w
         = Some (Ok tt (mkWorld (mkGame [from_tuple row] [from_tuple row] 0
                                        (max_questions (game w)))
                          (stdin w)
                          (stdout w ++ [LoadedPeople 1;
                                        Welcome 1 (max_questions (game w));
                                        FiguredOut; DrumRoll;
                                        ThePersonIs (strip_or_empty (row_name row));
                                        GuessedIn 0]))))
  /\ (forall row1 row2 : Row,
         0 < max_questions (game w) ->
         play_game fuel [row1; row2] w = None).
Proof.
  split; [| split].
  - unfold play_game. rewrite start_new_game_world. simpl.
    rewrite <- !app_assoc. reflexivity.
  - intros row. unfold play_game. rewrite start_new_game_world. simpl.
    rewrite <- !app_assoc. reflexivity.
  - intros row1 row2 Hmax. unfold play_game. rewrite start_new_game_world.
    apply round_loop_idle_forever.
    + unfold spec_transition_rule. cbn [game remaining_people map questions_asked
                                          max_questions].
      destruct (Nat.leb_spec (max_questions (game w)) 0); [lia | reflexivity].
    + simpl. lia.
Qed.

Lemma sessions_on_the_smallest_tables_witness :
  play_game 1000 [odd_row; odd_row] (console ["y"; "n"; "m"]) = None.
Proof.
  destruct (sessions_on_the_smallest_tables 1000 (console ["y"; "n"; "m"]))
    as (_ & _ & Htwo).
  apply Htwo. simpl. lia.
Defined.

(* ================================================================= *)
(** ** Persons to and from lists and rows *)

Lemma post_init_idempotent (p : Person) : post_init (post_init p) = post_init p.
Proof.
  unfold post_init. simpl.
  rewrite !upper_if_truthy, !upper_idempotent. reflexivity.
Qed.

(** X11: [from_list] undoes [to_list] up to the constructor's normalization:
    the list of a person reads back as that person with gender and industry
    upper-cased, hence as the same person when it came from the constructor.
    A list of fewer than 7 cells never yields a person, and cells after the
    seventh are ignored. *)
Theorem from_list_reads_back_to_list
    (int_of_str : string -> Py.result Z) (str_of_int : Z -> string) :
  (forall p : Person,
      from_list int_of_str str_of_int (to_list p) = Py.Return (post_init p))
  /\ (forall (sno0 : Z) (name0 gender0 : string) (age0 : Z)
             (occupation0 industry0 nationality0 : string),
         let p := Person_init sno0 name0 gender0 age0 occupation0 industry0
                              nationality0 in
         from_list int_of_str str_of_int (to_list p) = Py.Return p)
  /\ (forall (data : list Value) (p : Person),
         List.length data < 7 ->
         from_list int_of_str str_of_int data <> Py.Return p)
  /\ (forall (p : Person) (more : list Value),
         from_list int_of_str str_of_int (to_list p ++ more)
         = from_list int_of_str str_of_int (to_list p)).
Proof.
  split; [| split; [| split]].
  - intros [s n g a o i t]. reflexivity.
  - intros sno0 name0 gender0 age0 occupation0 industry0 nationality0 p.
    assert (H : from_list int_of_str str_of_int (to_list p) = Py.Return (post_init p)).
    { destruct p. reflexivity. }
    rewrite H. unfold p, Person_init. rewrite post_init_idempotent. reflexivity.
  - intros data p Hlen. unfold from_list, Py.index.
    destruct data as [| d0 [| d1 [| d2 [| d3 [| d4 [| d5 [| d6 rest]]]]]]];
      simpl in Hlen; try lia; simpl;
      repeat match goal with
             | |- context [Py.int ?f ?d] => destruct (Py.int f d); simpl
             end;
      discriminate.
  - intros [s n g a o i t] more. reflexivity.
Qed.

Lemma is_space_upper_char (c : ascii) :
  Str.is_space (Str.upper_char c) = Str.is_space c.
Proof. destruct c as [[] [] [] [] [] [] [] []]; reflexivity. Qed.

Lemma lstrip_upper (s : string) : Str.lstrip (Str.upper s) = Str.upper (Str.lstrip s).
Proof.
  induction s as [| c t IH]; simpl.
  - reflexivity.
  - rewrite is_space_upper_char. destruct (Str.is_space c); [assumption | reflexivity].
Qed.

Lemma rstrip_upper (s : string) : Str.rstrip (Str.upper s) = Str.upper (Str.rstrip s).
Proof.
  induction s as [| c t IH]; simpl.
  - reflexivity.
  - rewrite IH, is_space_upper_char.
    destruct (Str.rstrip t); simpl.
    + destruct (Str.is_space c); reflexivity.
    + reflexivity.
Qed.

Lemma strip_upper (s : string) : Str.strip (Str.upper s) = Str.upper (Str.strip s).
Proof. unfold Str.strip. rewrite lstrip_upper, rstrip_upper. reflexivity. Qed.

Lemma rstrip_cons (c : ascii) (t : string) :
  Str.rstrip (String c t)
  = match Str.rstrip t with
    | EmptyString => if Str.is_space c then EmptyString else String c EmptyString
    | String c' t' => String c (String c' t')
    end.
Proof. reflexivity. Qed.

Lemma rstrip_idempotent (s : string) : Str.rstrip (Str.rstrip s) = Str.rstrip s.
Proof.
  induction s as [| c t IH].
  - reflexivity.
  - rewrite rstrip_cons. destruct (Str.rstrip t) as [| c' t'] eqn:Ht.
    + destruct (Str.is_space c) eqn:Hc; [reflexivity |].
      rewrite rstrip_cons. simpl. rewrite Hc. reflexivity.
    + rewrite rstrip_cons, IH. reflexivity.
Qed.

Lemma lstrip_starts_unspaced (s : string) :
  match Str.lstrip s with
  | EmptyString => True
  | String c _ => Str.is_space c = false
  end.
Proof.
  induction s as [| c t IH]; simpl.
  - exact I.
  - destruct (Str.is_space c) eqn:Hc; [assumption | simpl; assumption].
Qed.

Lemma strip_idempotent (s : string) : Str.strip (Str.strip s) = Str.strip s.
Proof.
  unfold Str.strip.
  pose proof (lstrip_starts_unspaced s) as Hlead.
  destruct (Str.lstrip s) as [| c t].
  - reflexivity.
  - assert (H : Str.lstrip (Str.rstrip (String c t)) = Str.rstrip (String c t)).
    { cbn [Str.rstrip]. destruct (Str.rstrip t); rewrite ?Hlead; simpl;
        rewrite Hlead; reflexivity. }
    rewrite H. apply rstrip_idempotent.
Qed.

Lemma strip_or_empty_some (s : string) : strip_or_empty (Some s) = Str.strip s.
Proof. destruct s; reflexivity. Qed.

Lemma strip_of_strip_or_empty (x : option string) :
  strip_or_empty (Some (strip_or_empty x)) = strip_or_empty x.
Proof.
  rewrite strip_or_empty_some. destruct x as [s |].
  - rewrite strip_or_empty_some. apply strip_idempotent.
  - reflexivity.
Qed.

(** X12: a person loaded from a row has no white space around any text
    field, whatever the row held, gender and industry in upper case, and
    the empty string for a NULL column; loading the person's own fields
    again gives the same person. *)
Theorem from_tuple_loads_trimmed_fields (data : Row) :
  let p := from_tuple data in
  Str.strip (name p) = name p
  /\ Str.strip (gender p) = gender p /\ Str.upper (gender p) = gender p
  /\ Str.strip (occupation p) = occupation p
  /\ Str.strip (industry p) = industry p /\ Str.upper (industry p) = industry p
  /\ Str.strip (nationality p) = nationality p
  /\ (row_gender data = None -> gender p = "")
  /\ (row_nationality data = None -> nationality p = "")
  /\ from_tuple (mkRow (sno p) (Some (name p)) (Some (gender p)) (age p)
                       (Some (occupation p)) (Some (industry p))
                       (Some (nationality p))) = p.
Proof.
  intros p.
  assert (Hn : name p = strip_or_empty (row_name data)) by reflexivity.
  assert (Hg : gender p = Str.upper (strip_or_empty (row_gender data)))
    by apply upper_if_truthy.
  assert (Ho : occupation p = strip_or_empty (row_occupation data)) by reflexivity.
  assert (Hi : industry p = Str.upper (strip_or_empty (row_industry data)))
    by apply upper_if_truthy.
  assert (Ht : nationality p = strip_or_empty (row_nationality data)) by reflexivity.
  assert (Sn : Str.strip (name p) = name p).
  { rewrite Hn, <- strip_or_empty_some. apply strip_of_strip_or_empty. }
  assert (Sg : Str.strip (gender p) = gender p).
  { rewrite Hg, strip_upper, <- strip_or_empty_some, strip_of_strip_or_empty.
    reflexivity. }
  assert (So : Str.strip (occupation p) = occupation p).
  { rewrite Ho, <- strip_or_empty_some. apply strip_of_strip_or_empty. }
  assert (Si : Str.strip (industry p) = industry p).
  { rewrite Hi, strip_upper, <- strip_or_empty_some, strip_of_strip_or_empty.
    reflexivity. }
  assert (St : Str.strip (nationality p) = nationality p).
  { rewrite Ht, <- strip_or_empty_some. apply strip_of_strip_or_empty. }
  assert (Ug : Str.upper (gender p) = gender p)
    by (rewrite Hg; apply upper_idempotent).
  assert (Ui : Str.upper (industry p) = industry p)
    by (rewrite Hi; apply upper_idempotent).
  repeat (split; [assumption |]).
  split; [intros E; rewrite Hg, E; reflexivity |].
  split; [intros E; rewrite Ht, E; reflexivity |].
  unfold from_tuple, Person_init, post_init. cbn [row_sno row_name row_gender row_age
    row_occupation row_industry row_nationality sno name gender age occupation
    industry nationality].
  rewrite !strip_or_empty_some, !upper_if_truthy.
  rewrite Sn, Sg, So, Si, St, Ug, Ui. destruct p; reflexivity.
Qed.

(* ================================================================= *)
(** ** Criteria *)

(** X13: criteria are tested in order and the first that fails, or raises,
    decides: matching against [c1 ++ c2] is matching against [c1] and, only
    if that returns [True], against [c2]. *)
Theorem matches_criteria_in_sequence (p : Person) (c1 c2 : list (string * Value)) :
  matches_criteria p (c1 ++ c2)
  = match matches_criteria p c1 with
    | Py.Return true => matches_criteria p c2
    | decided => decided
    end.
Proof.
  induction c1 as [| [key value] rest IH]; simpl.
  - reflexivity.
  - destruct (criterion_rejects p key value) as [[|] | e].
    + reflexivity.
    + exact IH.
    + reflexivity.
Qed.

Lemma well_typed_never_raises (p : Person) (criterion : string * Value) :
  well_typed criterion = true ->
  exists b, criterion_rejects p (fst criterion) (snd criterion) = Py.Return b.
Proof.
  destruct criterion as [key value]. unfold well_typed, criterion_rejects, key_and,
    Str.mem. cbn [fst snd existsb].
  destruct (String.eqb_spec (Str.lower key) "gender") as [E | _].
  { rewrite E. destruct value; [| discriminate]. intros _. simpl.
    destruct (negb _); eexists; reflexivity. }
  destruct (String.eqb_spec (Str.lower key) "industry") as [E | _].
  { rewrite E. destruct value; [| discriminate]. intros _. simpl.
    destruct (negb _); eexists; reflexivity. }
  destruct (String.eqb_spec (Str.lower key) "occupation") as [E | _].
  { rewrite E. destruct value; [| discriminate]. intros _. simpl.
    destruct (negb _); eexists; reflexivity. }
  destruct (String.eqb_spec (Str.lower key) "nationality") as [E | _].
  { rewrite E. destruct value; [| discriminate]. intros _. simpl.
    destruct (negb _); eexists; reflexivity. }
  cbn [orb].
  destruct (String.eqb_spec (Str.lower key) "age_min") as [E | _].
  { rewrite E. destruct value; [discriminate |]. intros _. simpl.
    destruct (age p <? z)%Z; eexists; reflexivity. }
  destruct (String.eqb_spec (Str.lower key) "age_max") as [E | _].
  { destruct value; [discriminate |]. intros _. simpl. eexists; reflexivity. }
  intros _. simpl. eexists; reflexivity.
Qed.

Lemma matches_criteria_well_typed (p : Person) (criteria : list (string * Value)) :
  forallb well_typed criteria = true ->
  matches_criteria p criteria = Py.Return (forallb (accepts p) criteria).
Proof.
  induction criteria as [| [key value] rest IH]; simpl; intros H.
  - reflexivity.
  - apply andb_prop in H. destruct H as [Hc Hrest].
    destruct (well_typed_never_raises p (key, value) Hc) as [b Hb].
    cbn [fst snd] in Hb. unfold accepts. cbn [fst snd]. rewrite Hb.
    destruct b; [reflexivity | apply IH; assumption].
Qed.

Lemma forallb_permutation {A} (f : A -> bool) (l l' : list A) :
  Permutation l l' -> forallb f l = forallb f l'.
Proof.
  induction 1; simpl.
  - reflexivity.
  - rewrite IHPermutation. reflexivity.
  - destruct (f x), (f y); reflexivity.
  - congruence.
Qed.

(** X14: when every value has the type its key is used at, the order of the
    keyword arguments does not matter, and the result is [True] exactly when
    every criterion accepts the person: no exception is raised. *)
Theorem matches_criteria_order_is_irrelevant
    (p : Person) (criteria criteria' : list (string * Value)) :
  forallb well_typed criteria = true ->
  Permutation criteria criteria' ->
  matches_criteria p criteria' = matches_criteria p criteria
  /\ matches_criteria p criteria = Py.Return (forallb (accepts p) criteria).
Proof.
  intros Htyped Hperm.
  assert (Htyped' : forallb well_typed criteria' = true).
  { rewrite <- (forallb_permutation _ _ _ Hperm). assumption. }
  rewrite !matches_criteria_well_typed by assumption.
  rewrite (forallb_permutation _ _ _ Hperm). split; reflexivity.
Qed.

Lemma matches_criteria_order_is_irrelevant_witness :
  matches_criteria footballer
    [("age_max", VInt 40); ("Gender", VStr "m"); ("occupation", VStr "FOOT")]
  = matches_criteria footballer
      [("Gender", VStr "m"); ("occupation", VStr "FOOT"); ("age_max", VInt 40)]
  /\ matches_criteria footballer
       [("Gender", VStr "m"); ("occupation", VStr "FOOT"); ("age_max", VInt 40)]
     = Py.Return true.
Proof.
  apply (matches_criteria_order_is_irrelevant footballer
           [("Gender", VStr "m"); ("occupation", VStr "FOOT"); ("age_max", VInt 40)]
           [("age_max", VInt 40); ("Gender", VStr "m"); ("occupation", VStr "FOOT")]).
  - reflexivity.
  - apply Permutation_sym.
    apply (Permutation_cons_app [("Gender", VStr "m"); ("occupation", VStr "FOOT")] []).
    rewrite app_nil_r. apply Permutation_refl.
Defined.

(** With a value of the wrong type the order does matter: the same two
    criteria return [False] in one order and raise in the other. *)
Example ill_typed_criteria_depend_on_order :
  matches_criteria singer [("gender", VStr "M"); ("age_min", VStr "old")]
  = Py.Return false
  /\ matches_criteria singer [("age_min", VStr "old"); ("gender", VStr "M")]
     = Py.Throw Py.TypeError.
Proof. split; reflexivity. Qed.

Lemma unknown_key_rejects_nothing (p : Person) (key : string) (value : Value) :
  Str.mem (Str.lower key) known_keys = false ->
  criterion_rejects p key value = Py.Return false.
Proof.
  unfold known_keys, Str.mem. cbn [existsb]. intros H.
  repeat (apply orb_false_elim in H; destruct H as [?E H]).
  unfold criterion_rejects, key_and. rewrite E, E0, E1, E2, E3, E4. reflexivity.
Qed.

(** X15: a keyword argument whose lower-cased name is not one of the six
    known keys is ignored, whatever its value: dropping all such arguments
    changes neither the result nor the exception. *)
Theorem matches_criteria_ignores_unknown_keys
    (p : Person) (criteria : list (string * Value)) :
  matches_criteria p
    (filter (fun criterion => Str.mem (Str.lower (fst criterion)) known_keys) criteria)
  = matches_criteria p criteria.
Proof.
  induction criteria as [| [key value] rest IH].
  - reflexivity.
  - cbn [filter fst]. destruct (Str.mem (Str.lower key) known_keys) eqn:Hk.
    + cbn [matches_criteria]. rewrite IH. reflexivity.
    + cbn [matches_criteria].
      rewrite (unknown_key_rejects_nothing p key value Hk). exact IH.
Qed.

(** X16: on a person built by the constructor, the criteria agree with the
    tests the game applies: an industry criterion with the engine's
    predicates, a gender criterion with the gender question's comparison, the
    age bounds 41 and 40 with the two answers to the age question; an
    occupation criterion "tennis" in any letter case is [plays_tennis] for
    every person.  The nationality criterion is looser than the nationality
    question: equal nationalities match, and so do nationalities that differ
    in letter case only. *)
Theorem criteria_agree_with_the_questions (raw : Person) (v : string) :
  let p := post_init raw in
  (Str.upper v = "SPORTS" ->
     matches_criteria p [("industry", VStr v)] = Py.Return (plays_sport p))
  /\ (Str.upper v = "MUSIC" ->
     matches_criteria p [("industry", VStr v)] = Py.Return (is_in_music p))
  /\ (Str.upper v = "FILM" ->
     matches_criteria p [("industry", VStr v)] = Py.Return (is_in_film p))
  /\ matches_criteria p [("gender", VStr v)]
     = Py.Return (String.eqb (gender p) (Str.upper v))
  /\ (Str.lower v = "tennis" ->
     matches_criteria raw [("occupation", VStr v)] = Py.Return (plays_tennis raw))
  /\ matches_criteria raw [("age_min", VInt 41)] = Py.Return (40 <? age raw)%Z
  /\ matches_criteria raw [("age_max", VInt 40)] = Py.Return (age raw <=? 40)%Z
  /\ (Str.lower (nationality raw) = Str.lower v ->
     matches_criteria raw [("nationality", VStr v)] = Py.Return true).
Proof.
  intros p.
  assert (Ui : Str.upper (industry p) = industry p).
  { unfold p, post_init. simpl. rewrite upper_if_truthy. apply upper_idempotent. }
  assert (Ug : Str.upper (gender p) = gender p).
  { unfold p, post_init. simpl. rewrite upper_if_truthy. apply upper_idempotent. }
  clearbody p.
  assert (Hind : matches_criteria p [("industry", VStr v)]
                 = Py.Return (String.eqb (industry p) (Str.upper v))).
  { simpl. unfold criterion_rejects, key_and. simpl. rewrite Ui.
    destruct (String.eqb (industry p) (Str.upper v)); reflexivity. }
  repeat split.
  - intros E. rewrite Hind, E. reflexivity.
  - intros E. rewrite Hind, E. reflexivity.
  - intros E. rewrite Hind, E. reflexivity.
  - simpl. unfold criterion_rejects, key_and. simpl. rewrite Ug.
    destruct (String.eqb (gender p) (Str.upper v)); reflexivity.
  - intros E. simpl. unfold criterion_rejects, key_and. simpl. rewrite E.
    unfold plays_tennis. destruct (Str.contains "tennis" _); reflexivity.
  - simpl. unfold criterion_rejects, key_and. simpl.
    destruct (Z.ltb_spec (age raw) 41), (Z.ltb_spec 40 (age raw));
      try reflexivity; lia.
  - simpl. unfold criterion_rejects, key_and. simpl.
    destruct (Z.ltb_spec 40 (age raw)), (Z.leb_spec (age raw) 40);
      try reflexivity; lia.
  - intros E. simpl. unfold criterion_rejects, key_and. simpl. rewrite E.
    rewrite String.eqb_refl. reflexivity.
Qed.

Lemma criteria_agree_with_the_questions_witness :
  matches_criteria tennis_player [("industry", VStr "Sports")]
  = Py.Return (plays_sport tennis_player)
  /\ matches_criteria tennis_player [("nationality", VStr "SWITZERLAND")]
     = Py.Return true.
Proof.
  destruct (criteria_agree_with_the_questions tennis_player "Sports")
    as (Hs & _).
  destruct (criteria_agree_with_the_questions tennis_player "SWITZERLAND")
    as (_ & _ & _ & _ & _ & _ & _ & Hn).
  split; [exact (Hs eq_refl) | exact (Hn eq_refl)].
Defined.

(* ================================================================= *)
(** ** What reaches the database *)

(** The row [processed_data] yields has seven cells, a gender of exactly one
    character in upper case and an industry in upper case; a record of fewer
    than seven cells, or with an empty gender text, yields no row. *)
Lemma processed_data_outcomes
    (int_of_str : string -> Py.result Z) (str_of_int : Z -> string)
    (record_data : list Value) :
  (forall row,
      processed_data int_of_str str_of_int record_data = Py.Return row ->
      exists sno0 name0 gender0 age0 occupation0 industry0 nationality0,
        row = [VInt sno0; VStr name0; VStr gender0; VInt age0; VStr occupation0;
               VStr industry0; VStr nationality0]
        /\ String.length gender0 = 1
        /\ Str.upper gender0 = gender0
        /\ Str.upper industry0 = industry0)
  /\ (List.length record_data < 7 ->
      forall row, processed_data int_of_str str_of_int record_data <> Py.Return row)
  /\ (nth_error record_data 2 = Some (VStr "") ->
      forall row, processed_data int_of_str str_of_int record_data <> Py.Return row).
Proof.
  split; [| split].
  - intros row. unfold processed_data, Py.index.
    destruct record_data as [| d0 [| d1 [| d2 [| d3 [| d4 [| d5 [| d6 rest]]]]]]];
      simpl;
      repeat match goal with
             | |- context [Py.int ?f ?d] => destruct (Py.int f d); simpl
             | |- context [first_char ?s] => destruct s eqn:?; simpl
             end;
      try discriminate.
    intros [= <-]. do 7 eexists. split; [reflexivity |].
    split; [reflexivity |]. split.
    + simpl. destruct (Py.str str_of_int d2) as [| c t]; [discriminate |].
      simpl in *. match goal with H : String _ _ = String _ _ |- _ =>
                    injection H as <- _ end.
      rewrite upper_char_idempotent. reflexivity.
    + apply upper_idempotent.
  - intros Hlen row. unfold processed_data, Py.index.
    destruct record_data as [| d0 [| d1 [| d2 [| d3 [| d4 [| d5 [| d6 rest]]]]]]];
      simpl in Hlen; try lia; simpl;
      repeat match goal with
             | |- context [Py.int ?f ?d] => destruct (Py.int f d); simpl
             | |- context [first_char ?s] => destruct (first_char s); simpl
             end;
      discriminate.
  - intros Hg row. unfold processed_data, Py.index.
    destruct record_data as [| d0 [| d1 [| d2 rest]]]; try discriminate Hg.
    simpl in Hg. injection Hg as ->. simpl.
    destruct (Py.int int_of_str d0); simpl; discriminate.
Qed.

Lemma py_int_raises (int_of_str : string -> Py.result Z) (d : Value) (e : Py.error) :
  (forall s e', int_of_str s = Py.Throw e' -> e' = Py.ValueError) ->
  Py.int int_of_str d = Py.Throw e -> e = Py.ValueError.
Proof. intros Hint. destruct d as [s | z]; simpl; [apply Hint | discriminate]. Qed.

Lemma first_char_raises (s : string) (e : Py.error) :
  first_char s = Py.Throw e -> e = Py.IndexError.
Proof. destruct s; simpl; [intros [= <-]; reflexivity | discriminate]. Qed.

(** Building the row raises nothing but [IndexError] (a missing cell, an
    empty gender) and [ValueError] (a text that [int] does not read). *)
Lemma processed_data_raises
    (int_of_str : string -> Py.result Z) (str_of_int : Z -> string)
    (record_data : list Value) (e : Py.error) :
  (forall s e', int_of_str s = Py.Throw e' -> e' = Py.ValueError) ->
  processed_data int_of_str str_of_int record_data = Py.Throw e ->
  e = Py.IndexError \/ e = Py.ValueError.
Proof.
  intros Hint. unfold processed_data, Py.index.
  destruct record_data as [| d0 [| d1 [| d2 [| d3 [| d4 [| d5 [| d6 rest]]]]]]];
    simpl;
    repeat match goal with
           | |- context [Py.int int_of_str ?d] =>
               let E := fresh "E" in destruct (Py.int int_of_str d) eqn:E; simpl
           | |- context [first_char ?s] =>
               let E := fresh "E" in destruct (first_char s) eqn:E; simpl
           end;
    intros H; try discriminate H; injection H as <-;
    first [ left; reflexivity
          | right; eapply py_int_raises; eassumption
          | left; eapply first_char_raises; eassumption ].
Qed.

Lemma add_record_rejects
    (int_of_str : string -> Py.result Z) (str_of_int : Z -> string)
    (execute : list Value -> bool) (record_data : list Value) :
  (forall s e', int_of_str s = Py.Throw e' -> e' = Py.ValueError) ->
  (forall row, processed_data int_of_str str_of_int record_data <> Py.Return row) ->
  (exists e, processed_data int_of_str str_of_int record_data = Py.Throw e
             /\ (e = Py.IndexError \/ e = Py.ValueError))
  /\ add_record int_of_str str_of_int execute record_data = Py.Return false.
Proof.
  intros Hint Hno. unfold add_record.
  destruct (processed_data int_of_str str_of_int record_data) as [row | e] eqn:Hp.
  - exfalso. apply (Hno row). reflexivity.
  - destruct (processed_data_raises _ _ _ _ Hint Hp) as [-> | ->];
      (split; [eexists; split; [reflexivity | auto] | reflexivity]).
Qed.

(** X17: for a record of texts and integers, [int] raising only
    [ValueError] on a text: [add_record] returns [True] exactly when building
    the row raised nothing and the database took the row, and that row has
    seven cells, a gender of exactly one character in upper case and an
    industry in upper case.  On a record of fewer than seven cells, or one
    whose gender text is empty, building the row raises [IndexError] or
    [ValueError], the second handler catches it, and [add_record] returns
    [False] whatever the database would have done. *)
Theorem add_record_inserts_only_normalized_rows
    (int_of_str : string -> Py.result Z) (str_of_int : Z -> string)
    (execute : list Value -> bool) (record_data : list Value) :
  (forall s e, int_of_str s = Py.Throw e -> e = Py.ValueError) ->
  (add_record int_of_str str_of_int execute record_data = Py.Return true
   <-> exists row,
         processed_data int_of_str str_of_int record_data = Py.Return row
         /\ execute row = true)
  /\ (forall row,
         processed_data int_of_str str_of_int record_data = Py.Return row ->
         exists sno0 name0 gender0 age0 occupation0 industry0 nationality0,
           row = [VInt sno0; VStr name0; VStr gender0; VInt age0; VStr occupation0;
                  VStr industry0; VStr nationality0]
           /\ String.length gender0 = 1
           /\ Str.upper gender0 = gender0
           /\ Str.upper industry0 = industry0)
  /\ (List.length record_data < 7 ->
      (exists e, processed_data int_of_str str_of_int record_data = Py.Throw e
                 /\ (e = Py.IndexError \/ e = Py.ValueError))
      /\ add_record int_of_str str_of_int execute record_data = Py.Return false)
  /\ (nth_error record_data 2 = Some (VStr "") ->
      (exists e, processed_data int_of_str str_of_int record_data = Py.Throw e
                 /\ (e = Py.IndexError \/ e = Py.ValueError))
      /\ add_record int_of_str str_of_int execute record_data = Py.Return false).
Proof.
  intros Hint.
  destruct (processed_data_outcomes int_of_str str_of_int record_data)
    as (Hrow & Hshort & Hgender).
  split; [| split; [| split]].
  - unfold add_record.
    destruct (processed_data int_of_str str_of_int record_data) as [row | e] eqn:Hp.
    + split.
      * intros [= H]. exists row. split; [reflexivity | assumption].
      * intros (row' & [= <-] & H). rewrite H. reflexivity.
    + split.
      * destruct (processed_data_raises _ _ _ _ Hint Hp) as [-> | ->]; discriminate.
      * intros (row' & H & _). discriminate H.
  - exact Hrow.
  - intros Hlen. apply add_record_rejects; [assumption | apply Hshort; assumption].
  - intros Hg. apply add_record_rejects; [assumption | apply Hgender; assumption].
Qed.

Lemma add_record_inserts_only_normalized_rows_witness :
  add_record (fun _ => Py.Throw Py.ValueError) (fun _ => "0") (fun _ => true)
    [VInt 51; VStr "Ada Lovelace"; VStr ""; VInt 36; VStr "Mathematician";
     VStr "science"; VStr "Great Britain"]
  = Py.Return false.
Proof.
  destruct (add_record_inserts_only_normalized_rows
              (fun _ => Py.Throw Py.ValueError) (fun _ => "0") (fun _ => true)
              [VInt 51; VStr "Ada Lovelace"; VStr ""; VInt 36; VStr "Mathematician";
               VStr "science"; VStr "Great Britain"])
    as (_ & _ & _ & Hgender).
  - intros s e H. injection H as <-. reflexivity.
  - apply Hgender. reflexivity.
Defined.

Lemma collect_conditions_adds (str_of_int : Z -> string)
    (criteria : list (string * Value)) (conditions values conditions' values' : list string) :
  collect_conditions str_of_int criteria conditions values
  = Py.Return (conditions', values') ->
  conditions' = conditions ++ flat_map condition_of_key (map fst criteria)
  /\ List.length values'
     = List.length values + List.length (flat_map condition_of_key (map fst criteria)).
Proof.
  revert conditions values.
  induction criteria as [| [key value] rest IH]; intros conditions values; simpl.
  - intros [= <- <-]. rewrite app_nil_r. split; [reflexivity | lia].
  - unfold condition_of_key at 1 3.
    destruct (String.eqb (Str.upper key) "GENDER").
    { destruct value as [s | z]; simpl; [| discriminate].
      intros H. apply IH in H. destruct H as [-> ->].
      rewrite <- app_assoc, length_app. simpl. split; [reflexivity | lia]. }
    destruct (String.eqb (Str.upper key) "INDUSTRY").
    { destruct value as [s | z]; simpl; [| discriminate].
      intros H. apply IH in H. destruct H as [-> ->].
      rewrite <- app_assoc, length_app. simpl. split; [reflexivity | lia]. }
    destruct (String.eqb (Str.upper key) "OCCUPATION").
    { intros H. apply IH in H. destruct H as [-> ->].
      rewrite <- app_assoc, length_app. simpl. split; [reflexivity | lia]. }
    simpl. apply IH.
Qed.

Lemma condition_of_key_known (keys : list string) :
  Forall (fun c => In c ["GENDER = %s"; "INDUSTRY = %s"; "OCCUPATION LIKE %s"])
         (flat_map condition_of_key keys).
Proof.
  induction keys as [| key rest IH]; simpl.
  - constructor.
  - apply Forall_app. split; [| assumption].
    unfold condition_of_key.
    destruct (String.eqb (Str.upper key) "GENDER");
      [constructor; [simpl; auto 6 | constructor] |].
    destruct (String.eqb (Str.upper key) "INDUSTRY");
      [constructor; [simpl; auto 6 | constructor] |].
    destruct (String.eqb (Str.upper key) "OCCUPATION");
      [constructor; [simpl; auto 6 | constructor] | constructor].
Qed.

Lemma get_people_by_criteria_query (str_of_int : Z -> string)
    (criteria : list (string * Value)) (query : string) (values : list string) :
  get_people_by_criteria str_of_int criteria = Py.Return (query, values) ->
  List.length values = List.length (flat_map condition_of_key (map fst criteria))
  /\ query
     = match flat_map condition_of_key (map fst criteria) with
       | [] => all_people_query
       | conditions =>
           String.append "SELECT * FROM guess_who WHERE "
             (String.append (Py.join " AND " conditions) " ORDER BY sno")
       end.
Proof.
  unfold get_people_by_criteria.
  destruct (collect_conditions str_of_int criteria [] []) as [[cs vs] | e] eqn:Hc;
    [| discriminate].
  apply collect_conditions_adds in Hc. destruct Hc as [-> Hlen].
  simpl in Hlen. cbn [Py.bind fst snd app].
  destruct (flat_map condition_of_key (map fst criteria)) as [| c cs] eqn:Hk.
  - intros [= <- <-]. split; reflexivity.
  - intros [= <- <-]. split; [assumption | reflexivity].
Qed.

Lemma string_append_assoc (a b c : string) :
  String.append (String.append a b) c = String.append a (String.append b c).
Proof. induction a as [| x a IH]; simpl; [reflexivity | rewrite IH; reflexivity]. Qed.

Lemma placeholders_skip (c : ascii) (rest : string) :
  Ascii.eqb c "%" = false -> placeholders (String c rest) = placeholders rest.
Proof. intros H. destruct rest; simpl; [reflexivity | rewrite H; reflexivity]. Qed.

Lemma placeholders_hit (rest : string) :
  placeholders (String "%" (String "s" rest)) = S (placeholders rest).
Proof. reflexivity. Qed.

Ltac count_placeholders :=
  cbn [String.append];
  repeat first [ rewrite placeholders_hit
               | rewrite placeholders_skip by reflexivity ].

Lemma placeholders_condition (c tail : string) :
  In c ["GENDER = %s"; "INDUSTRY = %s"; "OCCUPATION LIKE %s"] ->
  placeholders (String.append c tail) = S (placeholders tail).
Proof.
  intros [<- | [<- | [<- | []]]]; count_placeholders; reflexivity.
Qed.

Lemma placeholders_join (conditions : list string) :
  Forall (fun c => In c ["GENDER = %s"; "INDUSTRY = %s"; "OCCUPATION LIKE %s"])
         conditions ->
  conditions <> [] ->
  placeholders (String.append (Py.join " AND " conditions) " ORDER BY sno")
  = List.length conditions.
Proof.
  induction 1 as [| c cs Hc Hcs IH]; intros Hne; [congruence |].
  destruct cs as [| c' cs'].
  - cbn [Py.join List.length]. rewrite (placeholders_condition _ _ Hc). reflexivity.
  - change (Py.join " AND " (c :: c' :: cs'))
      with (String.append c (String.append " AND " (Py.join " AND " (c' :: cs')))).
    rewrite !string_append_assoc. rewrite (placeholders_condition _ _ Hc).
    count_placeholders. rewrite IH by discriminate. reflexivity.
Qed.

Lemma placeholders_statement (conditions : list string) :
  Forall (fun c => In c ["GENDER = %s"; "INDUSTRY = %s"; "OCCUPATION LIKE %s"])
         conditions ->
  placeholders (statement_of conditions) = List.length conditions.
Proof.
  intros Hknown. destruct conditions as [| c cs].
  - reflexivity.
  - unfold statement_of. count_placeholders.
    apply placeholders_join; [assumption | discriminate].
Qed.

(** X18: the statement [get_people_by_criteria] passes to the cursor is
    [get_all_people]'s when no keyword is recognized and otherwise the
    WHERE clause of the conditions of the recognized keywords, in call order,
    joined by AND; each condition is one of three fixed texts with one
    placeholder, and the statement holds exactly as many placeholders [%s] as
    values are bound.  Its text is fixed by the keyword names alone: the
    values supplied are bound, never written into it. *)
Theorem criteria_query_binds_every_value (str_of_int : Z -> string)
    (criteria : list (string * Value)) (query : string) (values : list string) :
  get_people_by_criteria str_of_int criteria = Py.Return (query, values) ->
  let conditions := flat_map condition_of_key (map fst criteria) in
  query = statement_of conditions
  /\ placeholders query = List.length values
  /\ List.length values = List.length conditions
  /\ Forall (fun c => In c ["GENDER = %s"; "INDUSTRY = %s"; "OCCUPATION LIKE %s"])
            conditions
  /\ (conditions = [] -> query = all_people_query /\ values = [])
  /\ (forall criteria' query' values',
         map fst criteria' = map fst criteria ->
         get_people_by_criteria str_of_int criteria' = Py.Return (query', values') ->
         query' = query).
Proof.
  intros H conditions.
  destruct (get_people_by_criteria_query _ _ _ _ H) as [Hlen Hq].
  fold conditions in Hlen, Hq.
  assert (Hknown : Forall (fun c => In c ["GENDER = %s"; "INDUSTRY = %s";
                                          "OCCUPATION LIKE %s"]) conditions)
    by apply condition_of_key_known.
  assert (Hstmt : query = statement_of conditions).
  { rewrite Hq. unfold statement_of. destruct conditions; reflexivity. }
  split; [assumption |].
  split; [rewrite Hstmt, Hlen; apply placeholders_statement; assumption |].
  split; [assumption |]. split; [assumption |]. split.
  - intros E. rewrite E in Hlen, Hq. split; [assumption |].
    destruct values; [reflexivity | discriminate Hlen].
  - intros criteria' query' values' Hkeys H'.
    destruct (get_people_by_criteria_query _ _ _ _ H') as [_ Hq'].
    rewrite Hkeys in Hq'. fold conditions in Hq'. congruence.
Qed.

Lemma criteria_query_binds_every_value_witness :
  "SELECT * FROM guess_who WHERE GENDER = %s AND OCCUPATION LIKE %s ORDER BY sno"
  = statement_of (flat_map condition_of_key ["gender"; "colour"; "Occupation"])
  /\ placeholders
       "SELECT * FROM guess_who WHERE GENDER = %s AND OCCUPATION LIKE %s ORDER BY sno"
     = List.length ["M"; "%7%"].
Proof.
  destruct (criteria_query_binds_every_value (fun _ => "7")
              [("gender", VStr "m"); ("colour", VInt 3); ("Occupation", VInt 7)]
              "SELECT * FROM guess_who WHERE GENDER = %s AND OCCUPATION LIKE %s ORDER BY sno"
              ["M"; "%7%"] eq_refl) as (Htext & Hcount & _).
  split; [exact Htext | exact Hcount].
Defined.
